(** * Frame extraction and archive packaging of [vidéo_img.py]

    A shallow embedding of the two core functions of the script,
    [extract_frames_from_video] and [create_zip_from_folder], together
    with the Python and library primitives they rely on, and the
    properties of the written specification checked against them.

    Conventions.
    - Python [int] is [Z]; Python [float] values that are finite are
      read as the rational they denote ([Q]).
    - A raised exception is an explicit outcome; the state reached when
      it is raised is kept, since files already written stay on disk.
    - The capture is the finite list of frames that successive
      [cap.read()] calls deliver before returning [ret = False]. *)

From Stdlib Require Import ZArith QArith Qround Qabs List Lia Bool.
From Stdlib.Strings Require Import String Ascii Byte.
From Stdlib Require Import DecimalString DecimalN.
Import ListNotations.

Open Scope Z_scope.

(** ** Python primitives *)

Module Py.

(** The built-in exceptions the two functions can raise by themselves. *)
Inductive exn : Type :=
| ZeroDivisionError
| OSError.

Inductive outcome (A : Type) : Type :=
| Return (a : A)
| Raise (e : exn).
Arguments Return {A} a.
Arguments Raise {A} e.

(** [int(x)] on a float: truncation toward zero. *)
Definition int (x : Q) : Z := Z.quot (Qnum x) (Z.pos (Qden x)).

(** [a % b] on ints: floor remainder, [ZeroDivisionError] when [b = 0]. *)
Definition mod_ (a b : Z) : outcome Z :=
  if b =? 0 then Raise ZeroDivisionError else Return (a mod b).

(** [a / b] on ints: true division, [ZeroDivisionError] when [b = 0]. *)
Definition truediv (a b : Z) : outcome Q :=
  if b =? 0 then Raise ZeroDivisionError
  else Return (inject_Z a / inject_Z b)%Q.

(** [min(x, y)]: the first argument unless the second is strictly smaller. *)
Definition min (x y : Q) : Q := if Qle_bool x y then x else y.

(** [str(n)] for [n >= 0]. *)
Definition str_nat (n : Z) : string :=
  NilZero.string_of_uint (N.to_uint (Z.to_N n)).

Fixpoint zeros (n : nat) : string :=
  match n with
  | O => EmptyString
  | S n' => String "0" (zeros n')
  end.

(** [s.zfill(w)] on a string of digits. *)
Definition zfill (w : nat) (s : string) : string :=
  (zeros (w - String.length s) ++ s)%string.

(** The format specification [{n:04d}]: sign-aware zero padding to a
    minimum width of four characters. *)
Definition format_04d (n : Z) : string :=
  if n <? 0 then String "-" (zfill 3 (str_nat (- n)))
  else zfill 4 (str_nat n).

Definition startswith_sep (s : string) : bool :=
  match s with
  | String c _ => Ascii.eqb c "/"
  | EmptyString => false
  end.

Fixpoint endswith_sep (s : string) : bool :=
  match s with
  | EmptyString => false
  | String c EmptyString => Ascii.eqb c "/"
  | String _ rest => endswith_sep rest
  end.

(** [os.path.join(a, b)] of [posixpath]. *)
Definition path_join (a b : string) : string :=
  if startswith_sep b then b
  else if (String.length a =? 0)%nat || endswith_sep a then (a ++ b)%string
  else (a ++ "/" ++ b)%string.

End Py.

Import Py.

(** ** The frame sampler: [extract_frames_from_video] *)

Section FrameSampler.

(** A decoded frame, and the bytes [cv2.imwrite] stores for it. *)
Variable Frame : Type.
Variable imencode : Frame -> list byte.

(** What [cv2.VideoCapture(video_path)] exposes: two metadata
    properties, returned by [cap.get] as floats, and the frames that
    [cap.read()] yields, in order. *)
Record VideoCapture : Type := mkCapture {
  CAP_PROP_FPS : Q;
  CAP_PROP_FRAME_COUNT : Q;
  read_frames : list Frame
}.

(** The locals of the function that change in the loop, with the two
    effects: files written by [cv2.imwrite] (oldest first) and values
    handed to [progress_bar.progress] (oldest first; [st.progress(0)]
    shows [0] on creation). *)
Record state : Type := mkState {
  frame_count : Z;
  saved_count : Z;
  written : list (string * list byte);
  shown : list Q
}.

Definition M (A : Type) : Type := state -> state * outcome A.

Definition ret {A} (a : A) : M A := fun s => (s, Return a).

Definition bind {A B} (m : M A) (k : A -> M B) : M B :=
  fun s =>
    match m s with
    | (s', Return a) => k a s'
    | (s', Raise e) => (s', Raise e)
    end.

Definition lift {A} (o : outcome A) : M A := fun s => (s, o).
Definition get {A} (proj : state -> A) : M A := fun s => (s, Return (proj s)).
Definition modify (f : state -> state) : M unit := fun s => (f s, Return tt).

Notation "x <- m ;; k" := (bind m (fun x => k))
  (at level 61, m at next level, right associativity).
Notation "m ;;; k" := (bind m (fun _ => k))
  (at level 61, right associativity).

Definition imwrite (path : string) (frame : Frame) : M unit :=
  modify (fun s => mkState (frame_count s) (saved_count s)
                           (written s ++ [(path, imencode frame)]) (shown s)).

Definition incr_saved_count : M unit :=
  modify (fun s => mkState (frame_count s) (saved_count s + 1)
                           (written s) (shown s)).

Definition incr_frame_count : M unit :=
  modify (fun s => mkState (frame_count s + 1) (saved_count s)
                           (written s) (shown s)).

Definition progress_bar_progress (v : Q) : M unit :=
  modify (fun s => mkState (frame_count s) (saved_count s)
                           (written s) (shown s ++ [v])).

(** [f"frame_{saved_count:04d}.jpg"] *)
Definition frame_filename (k : Z) : string :=
  ("frame_" ++ format_04d k ++ ".jpg")%string.

Definition when (b : bool) (m : M unit) : M unit := if b then m else ret tt.

(** The body of [while True:] once [cap.read()] has delivered [frame]. *)
Definition loop_body (frame_interval total_frames : Z) (output_dir : string)
           (frame : Frame) : M unit :=
  fc <- get frame_count ;;
  r <- lift (mod_ fc frame_interval) ;;
  when (r =? 0)
    (k <- get saved_count ;;
     imwrite (path_join output_dir (frame_filename k)) frame ;;;
     incr_saved_count) ;;;
  incr_frame_count ;;;
  fc' <- get frame_count ;;
  progress <- lift (truediv fc' total_frames) ;;
  progress_bar_progress (Py.min progress 1).

(** [while True: ret, frame = cap.read(); if not ret: break; ...] *)
Fixpoint loop (frame_interval total_frames : Z) (output_dir : string)
         (frames : list Frame) : M unit :=
  match frames with
  | [] => ret tt
  | frame :: rest =>
      loop_body frame_interval total_frames output_dir frame ;;;
      loop frame_interval total_frames output_dir rest
  end.

(** [frame_interval = int(fps * interval_seconds)] *)
Definition frame_interval_of (fps interval_seconds : Q) : Z :=
  int (fps * interval_seconds)%Q.

Definition initial_state : state := mkState 0 0 [] [0%Q].

(** The function. [os.makedirs(output_dir, exist_ok=True)] and every
    [cv2.imwrite] are taken to succeed (a writable destination), and
    [cap.release()] has no bearing on the result. The state returned
    next to the outcome carries the files written and the fractions
    shown. *)
Definition extract_frames_from_video (cap : VideoCapture)
           (interval_seconds : Q) (output_dir : string)
  : state * outcome (Z * string) :=
  let fps := CAP_PROP_FPS cap in
  let frame_interval := frame_interval_of fps interval_seconds in
  let total_frames := int (CAP_PROP_FRAME_COUNT cap) in
  (loop frame_interval total_frames output_dir (read_frames cap) ;;;
   k <- get saved_count ;;
   ret (k, output_dir)) initial_state.

(** *** Reference descriptions used by the statements *)

(** The frames of [frames] whose index, counted from [c], is a
    multiple of [step]. *)
Fixpoint picked (step c : Z) (frames : list Frame) : list Frame :=
  match frames with
  | [] => []
  | f :: rest =>
      if c mod step =? 0 then f :: picked step (c + 1) rest
      else picked step (c + 1) rest
  end.

(** The files for [imgs], numbered in sequence from [k]. *)
Fixpoint numbered (output_dir : string) (k : Z) (imgs : list Frame)
  : list (string * list byte) :=
  match imgs with
  | [] => []
  | f :: rest =>
      (path_join output_dir (frame_filename k), imencode f)
        :: numbered output_dir (k + 1) rest
  end.

(** The fractions shown for frames number [c + 1], ..., [c + n]. *)
Fixpoint fractions (total_frames c : Z) (n : nat) : list Q :=
  match n with
  | O => []
  | S n' =>
      Py.min (inject_Z (c + 1) / inject_Z total_frames)%Q 1
        :: fractions total_frames (c + 1) n'
  end.

(** The frames the loop gets through: all of them, or only the first
    when the division by [total_frames] stops it. *)
Definition consumed (total_frames : Z) (frames : list Frame) : list Frame :=
  if total_frames =? 0 then firstn 1 frames else frames.

End FrameSampler.

Arguments mkCapture {Frame}.
Arguments CAP_PROP_FPS {Frame}.
Arguments CAP_PROP_FRAME_COUNT {Frame}.
Arguments read_frames {Frame}.
Arguments extract_frames_from_video {Frame}.
Arguments loop {Frame}.
Arguments loop_body {Frame}.
Arguments picked {Frame}.
Arguments numbered {Frame}.
Arguments consumed {Frame}.
Arguments imwrite {Frame}.

(** ** The archive builder: [create_zip_from_folder] *)

Module Fs.

(** An absolute, normalised path, as the list of its components
    (what [os.path.abspath] leaves between the separators). *)
Definition path : Type := list string.

(** A member of a zip archive: its name and its deflated payload. *)
Definition member : Type := (string * list byte)%type.

(** What a regular file holds: plain bytes, or a zip container whose
    members are kept as a list, in the order they were added. *)
Inductive content : Type :=
| Raw (data : list byte)
| Zip (members : list member).

(** A file tree; a directory lists its entries in the order
    [os.scandir] reports them. *)
#[warnings="-register-all"]
Inductive node : Type :=
| File (c : content)
| Dir (entries : list (string * node)).

Fixpoint assoc {A} (name : string) (es : list (string * A)) : option A :=
  match es with
  | [] => None
  | (k, v) :: rest => if String.eqb name k then Some v else assoc name rest
  end.

Fixpoint replace {A} (name : string) (v : A) (es : list (string * A))
  : list (string * A) :=
  match es with
  | [] => []
  | (k, w) :: rest =>
      if String.eqb name k then (k, v) :: rest
      else (k, w) :: replace name v rest
  end.

Fixpoint lookup (n : node) (p : path) : option node :=
  match p with
  | [] => Some n
  | name :: p' =>
      match n with
      | Dir es =>
          match assoc name es with
          | Some child => lookup child p'
          | None => None
          end
      | File _ => None
      end
  end.

(** [open(p, 'wb')] followed by writing [c] and closing: the file is
    created in an existing directory, or its previous content is
    replaced; a directory cannot be opened for writing. *)
Fixpoint write_file (n : node) (p : path) (c : content) : option node :=
  match p with
  | [] =>
      match n with
      | File _ => Some (File c)
      | Dir _ => None
      end
  | name :: p' =>
      match n with
      | Dir es =>
          match assoc name es with
          | Some child =>
              match write_file child p' c with
              | Some child' => Some (Dir (replace name child' es))
              | None => None
              end
          | None =>
              match p' with
              | [] => Some (Dir (es ++ [(name, File c)]))
              | _ :: _ => None
              end
          end
      | File _ => None
      end
  end.

Definition is_dir (n : node) : bool :=
  match n with Dir _ => true | File _ => false end.

Definition dirnames (es : list (string * node)) : list string :=
  map fst (filter (fun e => is_dir (snd e)) es).

Definition filenames (es : list (string * node)) : list string :=
  map fst (filter (fun e => negb (is_dir (snd e))) es).

(** [os.walk(top)], top-down, started on the node found at [top]:
    one triple [(root, dirs, files)] per directory. *)
Fixpoint walk (top : path) (n : node)
  : list (path * list string * list string) :=
  match n with
  | File _ => []
  | Dir es =>
      (top, dirnames es, filenames es)
        :: flat_map (fun e => walk (top ++ [fst e]) (snd e)) es
  end.

(** [os.walk(top)] on the disk [fs]; the error of a [top] that cannot
    be scanned is ignored and nothing is yielded. *)
Definition os_walk (fs : node) (top : path)
  : list (path * list string * list string) :=
  match lookup fs top with
  | Some n => walk top n
  | None => []
  end.

Fixpoint common_prefix_len (a b : path) : nat :=
  match a, b with
  | x :: a', y :: b' =>
      if String.eqb x y then S (common_prefix_len a' b') else O
  | _, _ => O
  end.

(** [sep.join(parts)] *)
Definition sep_join (parts : list string) : string := String.concat "/" parts.

(** [s.split(sep)] *)
Fixpoint split_sep (s : string) : list string :=
  match s with
  | EmptyString => [EmptyString]
  | String c s' =>
      if Ascii.eqb c "/" then EmptyString :: split_sep s'
      else match split_sep s' with
           | h :: t => String c h :: t
           | [] => [String c EmptyString]
           end
  end.

(** [os.path.relpath(p, start)] on absolute normalised paths: climb
    out of what [start] does not share with [p], then descend. *)
Definition relpath (p start : path) : string :=
  let i := common_prefix_len start p in
  let rel_list := repeat ".."%string (List.length start - i) ++ skipn i p in
  match rel_list with
  | [] => "."%string
  | _ :: _ => sep_join rel_list
  end.

(** A loop [for x in xs: body] over a state, left when [body] raises. *)
Fixpoint for_in {A S} (xs : list A) (body : A -> S -> S * outcome unit)
         (s : S) : S * outcome unit :=
  match xs with
  | [] => (s, Return tt)
  | x :: rest =>
      match body x s with
      | (s', Return _) => for_in rest body s'
      | (s', Raise e) => (s', Raise e)
      end
  end.

(** Names a directory entry can have. *)
Definition has_sep (s : string) : bool :=
  existsb (fun c => Ascii.eqb c "/") (list_ascii_of_string s).

Definition valid_name (s : string) : bool :=
  negb (String.eqb s "") && negb (String.eqb s ".")
  && negb (String.eqb s "..") && negb (has_sep s).

Fixpoint distinct (l : list string) : bool :=
  match l with
  | [] => true
  | x :: rest => negb (existsb (String.eqb x) rest) && distinct rest
  end.

(** A tree as a file system presents it: each directory has entries
    with valid, pairwise different names. *)
Fixpoint well_formed (n : node) : bool :=
  match n with
  | File _ => true
  | Dir es =>
      forallb valid_name (map fst es) && distinct (map fst es)
      && forallb (fun e => well_formed (snd e)) es
  end.

Fixpoint is_prefix (a b : path) : bool :=
  match a, b with
  | [], _ => true
  | x :: a', y :: b' => String.eqb x y && is_prefix a' b'
  | _ :: _, [] => false
  end.

(** The regular files below a node with their paths relative to
    it, in the order [os.walk] reaches them: the files of a directory
    first, then its sub-directories in turn. *)
Fixpoint files_under (n : node) : list (path * content) :=
  match n with
  | File _ => []
  | Dir es =>
      flat_map (fun e => match snd e with
                         | File c => [([fst e], c)]
                         | Dir _ => []
                         end) es
      ++ flat_map (fun e => map (fun pc => (fst e :: fst pc, snd pc))
                                (files_under (snd e))) es
  end.

End Fs.

Import Fs.

Section ArchiveBuilder.

(** [tempfile.gettempdir()] *)
Variable tempdir : path.

(** [zlib] deflate, and the bytes of a zip container on disk. *)
Variable deflate : list byte -> list byte.
Variable zip_encode : list member -> list byte.

Definition file_bytes (c : content) : list byte :=
  match c with
  | Raw data => data
  | Zip members => zip_encode members
  end.

(** [zipf.write(file_path, arcname)]: a regular file is read and
    stored deflated; a directory becomes an empty member named with a
    trailing separator; a missing file raises. *)
Definition zipf_write (fs : node) (file_path : path) (arcname : string)
           (zipf : list member) : list member * outcome unit :=
  match lookup fs file_path with
  | Some (File c) => (zipf ++ [(arcname, deflate (file_bytes c))], Return tt)
  | Some (Dir _) => (zipf ++ [((arcname ++ "/")%string, [])], Return tt)
  | None => (zipf, Raise OSError)
  end.

(** The member expected for the file found at [sub ++ q] below the
    folder, [q] and the file's content being given as a pair. *)
Definition member_of (sub : path) (pc : path * content) : member :=
  (sep_join (sub ++ fst pc), deflate (file_bytes (snd pc))).

(** The body of the [with] block, on the file system [fs] as it is
    once the archive has been opened: the members written, in order. *)
Definition write_members (fs : node) (folder_path : path)
  : list member * outcome unit :=
  for_in (os_walk fs folder_path)
    (fun '(root, dirs, files) =>
       for_in files
         (fun file =>
            let file_path := root ++ [file] in
            let arcname := relpath file_path folder_path in
            zipf_write fs file_path arcname))
    [].

(** Opening the archive with mode ['w'] creates or empties the file;
    leaving the [with] block closes it, also when the body raised, and
    the members written so far are then what the file holds. *)
Definition create_zip_from_folder (fs : node) (folder_path : path)
           (zip_name : string) : node * outcome path :=
  let zip_path := tempdir ++ [zip_name] in
  match write_file fs zip_path (Zip []) with
  | None => (fs, Raise OSError)
  | Some fs1 =>
      let '(zipf, r) := write_members fs1 folder_path in
      let fs2 := match write_file fs1 zip_path (Zip zipf) with
                 | Some fs' => fs'
                 | None => fs1
                 end in
      match r with
      | Return _ => (fs2, Return zip_path)
      | Raise e => (fs2, Raise e)
      end
  end.

(** [ZipFile(p).extractall()]: every member, by name, with its
    payload inflated. *)
Variable inflate : list byte -> list byte.


End ArchiveBuilder.

(** ** Notions the written specification uses *)





(** ** Sample inputs *)

(** A clip whose frames are told apart by their index: frame [n] is
    stored as [n] bytes. *)
Definition tag_encode (n : nat) : list byte := repeat x2a n.

Definition clip (fps declared_total : Q) (n : nat) : VideoCapture nat :=
  mkCapture fps declared_total (seq 0 n).

(** A disk with a temporary directory holding the output of one run
    and another directory. *)
Definition sample_run : list (string * node) :=
  [("frame_0000.jpg"%string, File (Raw [x01]));
   ("nested"%string, Dir [("notes.txt"%string, File (Raw [x02; x03]))]);
   ("frame_0001.jpg"%string, File (Raw [x04]))].

Definition sample_disk : node :=
  Dir [("tmp"%string,
        Dir [("run"%string, Dir sample_run);
             ("other"%string, Dir [("a.bin"%string, File (Raw [x05]))])])].

(** A codec that stores the bytes as they are, and a container
    encoding that is not looked at. *)
Definition stored (data : list byte) : list byte := data.
Definition no_bytes (members : list member) : list byte := [].

(** ** Notions used by the further properties *)

(** Reading a zero-padded number back. *)
Definition read_digits (s : string) : option N :=
  option_map N.of_uint (NilEmpty.uint_of_string s).

(** A file of the folder given by name and bytes, as a directory entry. *)
Definition file_entry (nb : string * list byte) : string * node :=
  (fst nb, File (Raw (snd nb))).

(** Whether a regular file lies at or below a node. *)
Fixpoint has_file (n : node) : bool :=
  match n with
  | File _ => true
  | Dir es => existsb (fun e => has_file (snd e)) es
  end.

(** The saved images under their bare names, numbered from [k]. *)
Fixpoint frame_files {Frame} (imencode : Frame -> list byte) (k : Z)
         (imgs : list Frame) : list (string * list byte) :=
  match imgs with
  | [] => []
  | f :: rest => (frame_filename k, imencode f) :: frame_files imencode (k + 1) rest
  end.

(** ** The page: [main] *)

Module Os.

(** [str(n)] on an int. *)
Definition str_int (n : Z) : string :=
  if n <? 0 then String "-" (str_nat (- n)) else str_nat n.

(** [a // b] on ints. *)
Definition floordiv (a b : Z) : outcome Z :=
  if b =? 0 then Raise ZeroDivisionError else Return (a / b).

(** [c.lower()] on the letters A to Z; other characters are kept. *)
Definition lower_char (c : ascii) : ascii :=
  let n := nat_of_ascii c in
  if ((65 <=? n) && (n <=? 90))%nat then ascii_of_nat (n + 32) else c.

Fixpoint lower (s : string) : string :=
  match s with
  | EmptyString => EmptyString
  | String c s' => String (lower_char c) (lower s')
  end.

(** [s.endswith(suffix)] *)
Fixpoint endswith (s suffix : string) : bool :=
  String.eqb s suffix
  || match s with
     | EmptyString => false
     | String _ s' => endswith s' suffix
     end.

(** The absolute path written with separators, and the components of
    such a string. *)
Definition path_string (p : path) : string := String "/" (sep_join p).

Definition abs_components (s : string) : path :=
  filter (fun c => negb (String.eqb c "")) (split_sep s).

Fixpoint remove_entry {A} (name : string) (es : list (string * A))
  : list (string * A) :=
  match es with
  | [] => []
  | (k, v) :: rest =>
      if String.eqb name k then rest else (k, v) :: remove_entry name rest
  end.

(** [os.open(p, O_CREAT | O_EXCL)] as the [tempfile] functions use it,
    followed by writing [c]: nothing may exist at [p]. *)
Definition create_file (n : node) (p : path) (c : content) : option node :=
  match lookup n p with
  | Some _ => None
  | None => write_file n p c
  end.

(** [os.mkdir(p)]: the parent is a directory and nothing exists at [p]. *)
Fixpoint mkdir (n : node) (p : path) : option node :=
  match p with
  | [] => None
  | name :: p' =>
      match n with
      | Dir es =>
          match assoc name es with
          | Some child =>
              match mkdir child p' with
              | Some child' => Some (Dir (replace name child' es))
              | None => None
              end
          | None =>
              match p' with
              | [] => Some (Dir (es ++ [(name, Dir [])]))
              | _ :: _ => None
              end
          end
      | File _ => None
      end
  end.

(** [os.unlink(p)]: a regular file is removed from its directory. *)
Fixpoint unlink (n : node) (p : path) : option node :=
  match p with
  | [] => None
  | name :: p' =>
      match n with
      | Dir es =>
          match assoc name es with
          | Some child =>
              match p' with
              | [] =>
                  match child with
                  | File _ => Some (Dir (remove_entry name es))
                  | Dir _ => None
                  end
              | _ :: _ =>
                  match unlink child p' with
                  | Some child' => Some (Dir (replace name child' es))
                  | None => None
                  end
              end
          | None => None
          end
      | File _ => None
      end
  end.

(** [os.listdir(p)], in the order of the directory. *)
Definition listdir (n : node) (p : path) : option (list string) :=
  match lookup n p with
  | Some (Dir es) => Some (map fst es)
  | _ => None
  end.

End Os.

Import Os.

Section Page.

Variable Frame : Type.
Variable imencode : Frame -> list byte.

(** What [cv2.VideoCapture] makes of the bytes of a video file. *)
Variable decode : list byte -> VideoCapture Frame.

Variable tempdir : path.
Variable deflate : list byte -> list byte.
Variable zip_encode : list member -> list byte.

(** What can be raised inside the [try] block: the exceptions of the
    two functions, and the one [st.columns] raises for a number of
    columns that is not positive. *)
Inductive app_exn : Type :=
| Core (e : exn)
| StreamlitAPIException.

(** The calls to Streamlit whose arguments depend on the run, in the
    order they are made; titles and fixed texts are left out. *)
Inductive widget : Type :=
| Info_interval (seconds : Z)
| Info_file (name : string) (size : nat)
| Info_estimate (per_minute : Z)
| Success (saved : Z)
| Image (img_path caption : string)
| Info_more (others : Z)
| Download_button (data : list byte) (file_name : string)
| Error_no_image
| Error_extraction (e : app_exn)
| Placeholder.

(** What one run of the script is given: the state of the three
    input widgets, and what the environment chooses, namely the names
    picked by [NamedTemporaryFile] and [mkdtemp] and the clock. *)
Record run_input : Type := mkInput {
  slider : Z;
  file_uploader : option (string * list byte);
  button : bool;
  video_name : string;
  dir_name : string;
  time_time : Z
}.

Record page : Type := mkPage {
  disk : node;
  shown_widgets : list widget
}.

Definition App (A : Type) : Type := page -> page * (A + app_exn).

Definition pure {A} (a : A) : App A := fun s => (s, inl a).
Definition throw {A} (e : app_exn) : App A := fun s => (s, inr e).

Definition and_then {A B} (m : App A) (k : A -> App B) : App B :=
  fun s =>
    match m s with
    | (s', inl a) => k a s'
    | (s', inr e) => (s', inr e)
    end.

Notation "x <~ m ;; k" := (and_then m (fun x => k))
  (at level 61, m at next level, right associativity).
Notation "m ';;'' k" := (and_then m (fun _ => k))
  (at level 61, right associativity).

Definition st (w : widget) : App unit :=
  fun s => (mkPage (disk s) (shown_widgets s ++ [w]), inl tt).

(** A disk operation that raises [OSError] when it cannot be done. *)
Definition on_disk (op : node -> option node) : App unit :=
  fun s =>
    match op (disk s) with
    | Some fs' => (mkPage fs' (shown_widgets s), inl tt)
    | None => (s, inr (Core OSError))
    end.

Definition from_disk {A} (read : node -> option A) : App A :=
  fun s =>
    match read (disk s) with
    | Some a => (s, inl a)
    | None => (s, inr (Core OSError))
    end.

(** The files [cv2.imwrite] has written reach the disk one by one; a
    file that cannot be written is skipped, as [imwrite] only returns
    [False] then. *)
Fixpoint store_written (fs : node) (files : list (string * list byte)) : node :=
  match files with
  | [] => fs
  | (file, data) :: rest =>
      match write_file fs (abs_components file) (Raw data) with
      | Some fs' => store_written fs' rest
      | None => store_written fs rest
      end
  end.

(** The call of [extract_frames_from_video] from the page: the video
    is decoded from the file at [video_path]; what the call writes is
    on the disk afterwards, also when it raises. *)
Definition call_extract (video_path : path) (interval_seconds : Z)
           (output_dir : string) : App (Z * string) :=
  fun s =>
    match lookup (disk s) video_path with
    | Some (File c) =>
        let cap := decode (file_bytes zip_encode c) in
        let '(final, r) :=
          extract_frames_from_video imencode cap (inject_Z interval_seconds)
                                    output_dir in
        let s' := mkPage (store_written (disk s) (written final))
                         (shown_widgets s) in
        match r with
        | Return v => (s', inl v)
        | Raise e => (s', inr (Core e))
        end
    | _ => (s, inr (Core OSError))
    end.

Definition call_create_zip (folder : path) : App path :=
  fun s =>
    let '(fs', r) :=
      create_zip_from_folder tempdir deflate zip_encode (disk s) folder
                             "extracted_frames.zip" in
    match r with
    | Return p => (mkPage fs' (shown_widgets s), inl p)
    | Raise e => (mkPage fs' (shown_widgets s), inr (Core e))
    end.

(** [st.columns(n)] *)
Definition st_columns (n : nat) : App unit :=
  match n with
  | O => throw StreamlitAPIException
  | S _ => pure tt
  end.

Fixpoint show_previews (output_dir : string) (image_files : list string)
  : App unit :=
  match image_files with
  | [] => pure tt
  | img_file :: rest =>
      st (Image (path_join output_dir img_file) img_file) ;;'
      show_previews output_dir rest
  end.

Definition is_image (f : string) : bool :=
  let l := lower f in
  endswith l ".jpg" || endswith l ".jpeg" || endswith l ".png".

(** The branch [if saved_count > 0:] of the [try] block. *)
Definition offer_archive (inp : run_input) (saved_count : Z)
           (output_dir : string) : App unit :=
  st (Success saved_count) ;;'
  names <~ from_disk (fun fs => listdir fs (abs_components output_dir)) ;;
  let image_files := filter is_image names in
  st_columns (Nat.min 3 (List.length image_files)) ;;'
  show_previews output_dir (firstn 3 image_files) ;;'
  (if (3 <? List.length image_files)%nat
   then st (Info_more (Z.of_nat (List.length image_files) - 3))
   else pure tt) ;;'
  zip_path <~ call_create_zip (abs_components output_dir) ;;
  data <~ from_disk (fun fs =>
            match lookup fs zip_path with
            | Some (File c) => Some (file_bytes zip_encode c)
            | _ => None
            end) ;;
  st (Download_button data
        ("frames_extracted_" ++ str_int (time_time inp) ++ ".zip")).

(** The [try] block run when the button is pressed. *)
Definition try_block (inp : run_input) (uploaded : list byte) : App unit :=
  let temp_video := tempdir ++ [video_name inp] in
  on_disk (fun fs => create_file fs temp_video (Raw uploaded)) ;;'
  let temp_video_path := path_string temp_video in
  on_disk (fun fs => mkdir fs (tempdir ++ [dir_name inp])) ;;'
  let temp_output_dir := path_string (tempdir ++ [dir_name inp]) in
  r <~ call_extract (abs_components temp_video_path) (slider inp)
                    temp_output_dir ;;
  let '(saved_count, output_dir) := r in
  (if 0 <? saved_count
   then offer_archive inp saved_count output_dir
   else st Error_no_image) ;;'
  on_disk (fun fs => unlink fs (abs_components temp_video_path)).

(** [try: ... except Exception as e: st.error(...)] *)
Definition try_except (body : App unit) : App unit :=
  fun s =>
    match body s with
    | (s', inl tt) => (s', inl tt)
    | (s', inr e) => st (Error_extraction e) s'
    end.

(** One run of the script. An exception raised outside the [try]
    block ends the run. On the disk a new entry is listed last in its
    directory; the statements about the page do not rely on where in a
    listing an entry stands. *)
Definition main (inp : run_input) : App unit :=
  let interval_seconds := slider inp in
  st (Info_interval interval_seconds) ;;'
  match file_uploader inp with
  | Some (name, data) =>
      st (Info_file name (List.length data)) ;;'
      st (Info_interval interval_seconds) ;;'
      (fun s => match floordiv 60 interval_seconds with
                | Return q => st (Info_estimate q) s
                | Raise e => (s, inr (Core e))
                end) ;;'
      if button inp then try_except (try_block inp data) else pure tt
  | None => st Placeholder
  end.

End Page.

(** What the page relies on: the temporary directory exists, its
    entries have pairwise different names, and the two names the
    [tempfile] functions pick are valid, different and unused. *)
Definition page_ready (tempdir : path) (fs : node) (inp : run_input) : Prop :=
  forallb valid_name tempdir = true
  /\ valid_name (video_name inp) = true
  /\ valid_name (dir_name inp) = true
  /\ video_name inp <> dir_name inp
  /\ exists es,
      lookup fs tempdir = Some (Dir es)
      /\ distinct (map fst es) = true
      /\ assoc (video_name inp) es = None
      /\ assoc (dir_name inp) es = None.



(** ** Sample runs of the page *)

(** A decoder for the samples: one frame per byte of the file, at 30
    frames per second, the container declaring 90 frames; and one whose
    container declares none. *)
Definition sample_decode (video : list byte) : VideoCapture nat :=
  clip 30 90 (List.length video).


Definition sample_input (video : list byte) : run_input :=
  mkInput 1 (Some ("plates.mp4"%string, video)) true
          "tmpab12.mp4" "tmpcd34" 1700000000.



Definition hollow_disk : node :=
  Dir [("tmp"%string,
        Dir [("run"%string,
              Dir [("a"%string, Dir []);
                   ("b"%string, Dir [("c"%string, Dir [])])])])].

(** * Properties of the frame sampler *)

Section FrameSamplerFacts.

Variable Frame : Type.
Variable imencode : Frame -> list byte.

Local Abbreviation body := (loop_body imencode).
Local Abbreviation run := (loop imencode).
Local Abbreviation files := (numbered imencode).

(** One pass through the loop body when neither division fails. *)
Lemma loop_body_runs (step total : Z) (d : string) (f : Frame) (s : state) :
  step <> 0 -> total <> 0 ->
  body step total d f s =
    (mkState (frame_count s + 1)
             (saved_count s + Z.of_nat (List.length (picked step (frame_count s) [f])))
             (written s ++ files d (saved_count s) (picked step (frame_count s) [f]))
             (shown s ++ fractions total (frame_count s) 1),
     Return tt).
Proof.
  intros Hs Ht. destruct s as [fc k w sh].
  unfold body, bind, get, lift, mod_, truediv, when. simpl.
  apply Z.eqb_neq in Hs. apply Z.eqb_neq in Ht. rewrite Hs.
  destruct (fc mod step =? 0) eqn:E; simpl; rewrite Ht; simpl;
    unfold progress_bar_progress, modify; simpl.
  - reflexivity.
  - rewrite Z.add_0_r, app_nil_r. reflexivity.
Qed.

(** The first pass when the declared total is zero: the frame is
    handled, then the division for the progress fraction raises. *)
Lemma loop_body_total_zero (step : Z) (d : string) (f : Frame) (s : state) :
  step <> 0 ->
  body step 0 d f s =
    (mkState (frame_count s + 1)
             (saved_count s + Z.of_nat (List.length (picked step (frame_count s) [f])))
             (written s ++ files d (saved_count s) (picked step (frame_count s) [f]))
             (shown s),
     Raise ZeroDivisionError).
Proof.
  intros Hs. destruct s as [fc k w sh].
  unfold body, bind, get, lift, mod_, truediv, when. simpl.
  apply Z.eqb_neq in Hs. rewrite Hs.
  destruct (fc mod step =? 0) eqn:E; simpl.
  - reflexivity.
  - rewrite Z.add_0_r, app_nil_r. reflexivity.
Qed.

(** With a zero step the remainder raises before anything changes. *)
Lemma loop_body_step_zero (total : Z) (d : string) (f : Frame) (s : state) :
  body 0 total d f s = (s, Raise ZeroDivisionError).
Proof. destruct s; reflexivity. Qed.

Lemma picked_cons (step c : Z) (f : Frame) (rest : list Frame) :
  picked step c (f :: rest) = picked step c [f] ++ picked step (c + 1) rest.
Proof. simpl. destruct (c mod step =? 0); reflexivity. Qed.

Lemma numbered_app (d : string) (k : Z) (a b : list Frame) :
  files d k (a ++ b) =
  files d k a ++ files d (k + Z.of_nat (List.length a)) b.
Proof.
  revert k. induction a as [|x a IH]; intros k; simpl.
  - now rewrite Z.add_0_r.
  - rewrite IH. do 3 f_equal. lia.
Qed.

Lemma numbered_length (d : string) (k : Z) (a : list Frame) :
  List.length (files d k a) = List.length a.
Proof. revert k. induction a; intros; simpl; auto. Qed.

(** The whole loop when neither division fails. *)
Lemma loop_runs (step total : Z) (d : string) (frames : list Frame) :
  step <> 0 -> total <> 0 ->
  forall s,
    run step total d frames s =
      (mkState (frame_count s + Z.of_nat (List.length frames))
               (saved_count s
                + Z.of_nat (List.length (picked step (frame_count s) frames)))
               (written s
                ++ files d (saved_count s) (picked step (frame_count s) frames))
               (shown s ++ fractions total (frame_count s) (List.length frames)),
       Return tt).
Proof.
  intros Hs Ht. induction frames as [|f rest IH]; intros s.
  - destruct s; simpl. unfold ret. simpl.
    now rewrite !Z.add_0_r, !app_nil_r.
  - cbn [loop]. unfold bind at 1.
    rewrite loop_body_runs by assumption. rewrite IH. cbn [frame_count saved_count written shown].
    rewrite (picked_cons step (frame_count s) f rest).
    rewrite numbered_app, !length_app, <- !app_assoc.
    cbn [List.length fractions app].
    f_equal. f_equal; lia.
Qed.

(** *** Counting the multiples of the step *)

Lemma ceil_step (c s : Z) :
  0 < s ->
  (c + 1 + s - 1) / s - (c + s - 1) / s = if c mod s =? 0 then 1 else 0.
Proof.
  intros Hs.
  pose proof (Z.div_mod c s ltac:(lia)) as E.
  pose proof (Z.mod_pos_bound c s Hs) as B.
  destruct (c mod s =? 0) eqn:M.
  - apply Z.eqb_eq in M. rewrite M in *.
    assert (H : c = s * (c / s)) by lia.
    replace (c + 1 + s - 1) with (1 * s + c) by lia.
    rewrite Z.div_add_l by lia.
    replace (c + s - 1) with ((s - 1) + (c / s) * s) by lia.
    rewrite Z.div_add by lia. rewrite (Z.div_small (s - 1) s) by lia.
    rewrite H at 1. rewrite Z.mul_comm, Z.div_mul by lia. lia.
  - apply Z.eqb_neq in M.
    replace (c + 1 + s - 1) with (c mod s + (c / s + 1) * s) by lia.
    replace (c + s - 1) with ((c mod s - 1) + (c / s + 1) * s) by lia.
    rewrite !Z.div_add by lia.
    rewrite (Z.div_small (c mod s)), (Z.div_small (c mod s - 1)) by lia. lia.
Qed.

Lemma picked_length (step : Z) (frames : list Frame) :
  0 < step ->
  forall c,
    Z.of_nat (List.length (picked step c frames)) =
    (c + Z.of_nat (List.length frames) + step - 1) / step
    - (c + step - 1) / step.
Proof.
  intros Hs. induction frames as [|f rest IH]; intros c.
  - simpl. rewrite Z.add_0_r. lia.
  - pose proof (ceil_step c step Hs) as C.
    pose proof (IH (c + 1)) as I.
    replace (c + Z.of_nat (List.length (f :: rest)) + step - 1)
      with (c + 1 + Z.of_nat (List.length rest) + step - 1)
      by (cbn [List.length]; lia).
    simpl picked. destruct (c mod step =? 0); cbn [List.length]; lia.
Qed.

(** [ceil(n / s)] of the rationals is the usual integer formula. *)
Lemma Qceiling_div (n s : Z) :
  0 < s -> Qceiling (inject_Z n / inject_Z s) = (n + s - 1) / s.
Proof.
  intros Hs. unfold Qceiling.
  assert (E : (- (inject_Z n / inject_Z s) == inject_Z (- n) / inject_Z s)%Q).
  { rewrite inject_Z_opp. field. intro H.
    assert (H0 : (inject_Z s == inject_Z 0)%Q) by exact H.
    rewrite inject_Z_injective in H0. lia. }
  rewrite E, <- Zdiv_Qdiv.
  pose proof (Z.div_mod n s ltac:(lia)) as D.
  pose proof (Z.mod_pos_bound n s Hs) as B.
  destruct (Z.eq_dec (n mod s) 0) as [M|M].
  - rewrite Z.div_opp_l_z by lia.
    replace (n + s - 1) with ((s - 1) + (n / s) * s) by lia.
    rewrite Z.div_add by lia. rewrite (Z.div_small (s - 1)) by lia. lia.
  - rewrite Z.div_opp_l_nz by lia.
    replace (n + s - 1) with ((n mod s - 1) + (n / s + 1) * s) by lia.
    rewrite Z.div_add by lia. rewrite (Z.div_small (n mod s - 1)) by lia. lia.
Qed.

Lemma picked_count (step : Z) (frames : list Frame) :
  0 < step ->
  Z.of_nat (List.length (picked step 0 frames)) =
  Qceiling (inject_Z (Z.of_nat (List.length frames)) / inject_Z step).
Proof.
  intros Hs. rewrite picked_length, Qceiling_div by assumption.
  rewrite (Z.div_small (0 + step - 1)) by lia. simpl. lia.
Qed.

(** *** Which frame lands in which file *)




(** *** The function as a whole *)

Local Abbreviation extract := (extract_frames_from_video imencode).

Lemma extract_empty (fps total t : Q) (d : string) :
  extract (mkCapture fps total []) t d = (initial_state, Return (0, d)).
Proof. reflexivity. Qed.

Lemma extract_runs (cap : VideoCapture Frame) (t : Q) (d : string) :
  let step := frame_interval_of (CAP_PROP_FPS cap) t in
  let total := int (CAP_PROP_FRAME_COUNT cap) in
  let imgs := picked step 0 (read_frames cap) in
  step <> 0 -> total <> 0 ->
  extract cap t d =
    (mkState (Z.of_nat (List.length (read_frames cap)))
             (Z.of_nat (List.length imgs))
             (files d 0 imgs)
             (0%Q :: fractions total 0 (List.length (read_frames cap))),
     Return (Z.of_nat (List.length imgs), d)).
Proof.
  intros step total imgs Hs Ht.
  unfold extract_frames_from_video, bind.
  fold step. fold total. rewrite loop_runs by assumption.
  reflexivity.
Qed.

Lemma extract_total_zero (cap : VideoCapture Frame) (t : Q) (d : string)
      (f : Frame) (rest : list Frame) :
  let step := frame_interval_of (CAP_PROP_FPS cap) t in
  let imgs := picked step 0 [f] in
  step <> 0 -> int (CAP_PROP_FRAME_COUNT cap) = 0 ->
  read_frames cap = f :: rest ->
  extract cap t d =
    (mkState 1 (Z.of_nat (List.length imgs)) (files d 0 imgs) [0%Q],
     Raise ZeroDivisionError).
Proof.
  intros step imgs Hs Ht Hf.
  unfold extract_frames_from_video, bind.
  fold step. rewrite Ht, Hf. cbn [loop]. unfold bind.
  rewrite loop_body_total_zero by assumption. reflexivity.
Qed.

Lemma extract_step_zero (cap : VideoCapture Frame) (t : Q) (d : string)
      (f : Frame) (rest : list Frame) :
  frame_interval_of (CAP_PROP_FPS cap) t = 0 ->
  read_frames cap = f :: rest ->
  extract cap t d = (initial_state, Raise ZeroDivisionError).
Proof.
  intros Hs Hf. unfold extract_frames_from_video, bind.
  rewrite Hs, Hf. cbn [loop]. unfold bind.
  rewrite loop_body_step_zero. reflexivity.
Qed.

(** Whatever the declared total, the state reached with a non-zero
    step is described by the frames the loop got through. *)
Lemma extract_state (cap : VideoCapture Frame) (t : Q) (d : string) :
  let step := frame_interval_of (CAP_PROP_FPS cap) t in
  let got := consumed (int (CAP_PROP_FRAME_COUNT cap)) (read_frames cap) in
  step <> 0 ->
  let st := fst (extract cap t d) in
  frame_count st = Z.of_nat (List.length got)
  /\ saved_count st = Z.of_nat (List.length (picked step 0 got))
  /\ written st = files d 0 (picked step 0 got).
Proof.
  intros step got Hs. unfold got, consumed.
  destruct (int (CAP_PROP_FRAME_COUNT cap) =? 0) eqn:T.
  - apply Z.eqb_eq in T. destruct (read_frames cap) as [|f rest] eqn:F.
    + destruct cap as [fps total fr]. simpl in F. subst fr. simpl.
      repeat split.
    + rewrite (extract_total_zero cap t d f rest) by assumption.
      simpl. repeat split.
  - apply Z.eqb_neq in T. rewrite extract_runs by assumption.
    simpl. repeat split.
Qed.


Lemma consumed_length (total : Z) (frames : list Frame) :
  (List.length (consumed total frames) <= List.length frames)%nat.
Proof.
  unfold consumed. destruct (total =? 0); [|lia].
  rewrite length_firstn. lia.
Qed.

(** With a positive declared total the function returns, and the
    count it returns is [ceil(N / S)]. *)
Lemma saved_count_ceiling (cap : VideoCapture Frame) (t : Q) (d : string) :
  let step := frame_interval_of (CAP_PROP_FPS cap) t in
  let n := Z.of_nat (List.length (read_frames cap)) in
  1 <= step -> 0 < int (CAP_PROP_FRAME_COUNT cap) ->
  snd (extract cap t d) = Return (Qceiling (inject_Z n / inject_Z step), d).
Proof.
  intros step n Hs Ht. rewrite extract_runs by (fold step; lia).
  cbn [snd]. fold step. now rewrite picked_count by lia.
Qed.

(** However the run ends, the images saved so far number
    [ceil(n / S)] for the [n] frames consumed so far. *)
Lemma saved_count_invariant (cap : VideoCapture Frame) (t : Q) (d : string) :
  let step := frame_interval_of (CAP_PROP_FPS cap) t in
  1 <= step ->
  let st := fst (extract cap t d) in
  saved_count st = Qceiling (inject_Z (frame_count st) / inject_Z step)
  /\ Z.of_nat (List.length (written st)) = saved_count st.
Proof.
  intros step Hs st.
  destruct (extract_state cap t d ltac:(fold step; lia)) as (Hfc & Hk & Hw).
  fold step in Hk, Hw. fold st in Hfc, Hk, Hw.
  rewrite Hfc, Hk, Hw, numbered_length. split; [|reflexivity].
  apply picked_count. lia.
Qed.


(** *** The fractions shown *)

Lemma fractions_in_unit (total : Z) (n : nat) :
  0 < total ->
  forall c, 0 <= c ->
    Forall (fun q => 0 <= q /\ q <= 1)%Q (fractions total c n).
Proof.
  intros Ht. induction n as [|n IH]; intros c Hc; simpl.
  - constructor.
  - constructor; [|apply IH; lia].
    assert (P : (0 <= inject_Z (c + 1) / inject_Z total)%Q).
    { apply Qle_shift_div_l.
      - change (inject_Z 0 < inject_Z total)%Q.
        rewrite <- Zlt_Qlt. exact Ht.
      - rewrite Qmult_0_l. change (inject_Z 0 <= inject_Z (c + 1))%Q.
        rewrite <- Zle_Qle. lia. }
    unfold Py.min.
    destruct (Qle_bool (inject_Z (c + 1) / inject_Z total) 1) eqn:E.
    + apply Qle_bool_iff in E. split; assumption.
    + split; [discriminate|apply Qle_refl].
Qed.

(** With a positive declared total, accurate or not, every frame is
    consumed and every fraction shown lies in [[0, 1]]. *)
Lemma progress_with_positive_total
      (cap : VideoCapture Frame) (t : Q) (d : string) :
  frame_interval_of (CAP_PROP_FPS cap) t <> 0 ->
  0 < int (CAP_PROP_FRAME_COUNT cap) ->
  let st := fst (extract cap t d) in
  frame_count st = Z.of_nat (List.length (read_frames cap))
  /\ List.length (shown st) = S (List.length (read_frames cap))
  /\ Forall (fun q => 0 <= q /\ q <= 1)%Q (shown st).
Proof.
  intros Hs Ht st. unfold st. rewrite extract_runs by lia.
  cbn [fst frame_count shown]. split; [reflexivity|split].
  - cbn [List.length]. f_equal.
    generalize 0 at 1. induction (read_frames cap); intros; simpl; auto.
  - constructor.
    + split; apply Qle_refl || discriminate.
    + apply fractions_in_unit; lia.
Qed.

(** *** Two runs side by side *)







End FrameSamplerFacts.

(** The width of the sequence number: four digits up to 9999. *)
Lemma format_04d_width (k : Z) :
  0 <= k < 10000 -> String.length (format_04d k) = 4%nat.
Proof.
  intros H.
  assert (A : forallb (fun n => (String.length (format_04d (Z.of_nat n)) =? 4)%nat)
                      (seq 0 (Z.to_nat 10000)) = true)
    by (vm_compute; reflexivity).
  rewrite forallb_forall in A.
  specialize (A (Z.to_nat k)). rewrite Z2Nat.id in A by lia.
  apply Nat.eqb_eq, A, in_seq. lia.
Qed.

(** The scenario of the specification: ten seconds at 30 frames per
    second, one image every two seconds. *)
Example ten_seconds_every_two :
  let run := extract_frames_from_video tag_encode (clip 30 300 300) 2 "frames" in
  snd run = Return (5, "frames"%string)
  /\ frame_count (fst run) = 300
  /\ written (fst run)
     = [("frames/frame_0000.jpg"%string, tag_encode 0);
        ("frames/frame_0001.jpg"%string, tag_encode 60);
        ("frames/frame_0002.jpg"%string, tag_encode 120);
        ("frames/frame_0003.jpg"%string, tag_encode 180);
        ("frames/frame_0004.jpg"%string, tag_encode 240)].
Proof. vm_compute. repeat split. Qed.

(** From the ten-thousandth image on the number takes five digits. *)
Example five_digits : format_04d 10000 = "10000"%string.
Proof. reflexivity. Qed.

(** C1. The count [ceil(N / S)] is not returned when the container
    declares 0 frames: with N = 100 and S = 25 the first frame is saved,
    then the division for the progress fraction raises, where the
    count to return is 4. *)
Theorem saved_count_lost_when_total_is_zero :
  let cap := clip 25 0 100 in
  frame_interval_of (CAP_PROP_FPS cap) 1 = 25
  /\ Qceiling (inject_Z 100 / inject_Z 25) = 4
  /\ extract_frames_from_video tag_encode cap 1 "out"
     = (mkState 1 1 [("out/frame_0000.jpg"%string, [])] [0%Q],
        Raise ZeroDivisionError).
Proof. vm_compute. repeat split. Qed.

(** C5. The progress fraction is not computed without error for every
    declared total: with a declared total of 0 the division raises after
    the first frame, so that the loop ends before the source is
    exhausted; with a negative declared total the value handed to the
    progress bar is below 0. *)
Theorem progress_fails_on_zero_total :
  extract_frames_from_video tag_encode (clip 30 0 3) 2 "out"
  = (mkState 1 1 [("out/frame_0000.jpg"%string, [])] [0%Q],
     Raise ZeroDivisionError)
  /\ exists q,
      In q (shown (fst (extract_frames_from_video tag_encode (clip 30 (-2) 3)
                                                  2 "out")))
      /\ (q < 0)%Q.
Proof.
  split.
  - vm_compute. reflexivity.
  - exists (-1 # 2)%Q. split; [vm_compute; auto|reflexivity].
Qed.




(** * Properties of the archive builder *)

(** ** The file tree *)

(** Induction on a tree, with the hypothesis available for every entry
    of a directory. *)
Fixpoint node_ind' (P : node -> Prop)
         (HF : forall c, P (File c))
         (HD : forall es, Forall (fun e => P (snd e)) es -> P (Dir es))
         (n : node) : P n :=
  match n with
  | File c => HF c
  | Dir es =>
      HD es ((fix go (l : list (string * node))
              : Forall (fun e => P (snd e)) l :=
                match l with
                | [] => Forall_nil _
                | (k, v) :: rest =>
                    Forall_cons (k, v) (node_ind' P HF HD v) (go rest)
                end) es)
  end.

Section TreeFacts.

Context {A : Type}.
Implicit Types (es : list (string * A)) (name : string).

Lemma assoc_replace_same name (v : A) es :
  assoc name es <> None -> assoc name (replace name v es) = Some v.
Proof.
  induction es as [|[k w] rest IH]; simpl; intros H.
  - contradiction.
  - destruct (String.eqb name k) eqn:E; simpl; rewrite E; auto.
Qed.

Lemma assoc_replace_other name name' (v : A) es :
  name' <> name -> assoc name' (replace name v es) = assoc name' es.
Proof.
  intros N. induction es as [|[k w] rest IH]; simpl; [reflexivity|].
  destruct (String.eqb name k) eqn:E; simpl.
  - apply String.eqb_eq in E. subst k.
    apply String.eqb_neq in N. now rewrite N.
  - now rewrite IH.
Qed.

Lemma assoc_app_new_same name (v : A) es :
  assoc name es = None -> assoc name (es ++ [(name, v)]) = Some v.
Proof.
  induction es as [|[k w] rest IH]; simpl; intros H.
  - now rewrite String.eqb_refl.
  - destruct (String.eqb name k); [discriminate|auto].
Qed.

Lemma assoc_app_new_other name name' (v : A) es :
  name' <> name -> assoc name' (es ++ [(name, v)]) = assoc name' es.
Proof.
  intros N. induction es as [|[k w] rest IH]; simpl.
  - apply String.eqb_neq in N. now rewrite N.
  - now rewrite IH.
Qed.

Lemma replace_replace name (v w : A) es :
  replace name w (replace name v es) = replace name w es.
Proof.
  induction es as [|[k u] rest IH]; simpl; [reflexivity|].
  destruct (String.eqb name k) eqn:E; simpl; rewrite E; [reflexivity|].
  now rewrite IH.
Qed.

Lemma replace_app_new name (v w : A) es :
  assoc name es = None ->
  replace name w (es ++ [(name, v)]) = es ++ [(name, w)].
Proof.
  induction es as [|[k u] rest IH]; simpl; intros H.
  - now rewrite String.eqb_refl.
  - destruct (String.eqb name k); [discriminate|]. now rewrite IH.
Qed.

(** In a directory with pairwise different names an entry is found
    under its name. *)
Lemma assoc_In name (v : A) es :
  distinct (map fst es) = true -> In (name, v) es -> assoc name es = Some v.
Proof.
  induction es as [|[k w] rest IH]; simpl; intros D H; [contradiction|].
  apply andb_prop in D. destruct D as [D1 D2].
  destruct H as [H|H].
  - injection H as -> ->. now rewrite String.eqb_refl.
  - destruct (String.eqb name k) eqn:E; [|auto].
    apply String.eqb_eq in E. subst k. exfalso.
    apply negb_true_iff in D1.
    assert (X : existsb (String.eqb name) (map fst rest) = true).
    { apply existsb_exists. exists name. split.
      - change name with (fst (name, v)). now apply in_map.
      - apply String.eqb_refl. }
    congruence.
Qed.

End TreeFacts.

Lemma lookup_app (n : node) (p q : path) :
  lookup n (p ++ q) =
  match lookup n p with
  | Some m => lookup m q
  | None => None
  end.
Proof.
  revert n. induction p as [|x p IH]; intros n; simpl; [reflexivity|].
  destruct n as [c|es]; [reflexivity|].
  destruct (assoc x es); [apply IH|reflexivity].
Qed.

(** What has been written is found again. *)
Lemma lookup_write_file (p : path) (c : content) :
  forall n n', write_file n p c = Some n' -> lookup n' p = Some (File c).
Proof.
  induction p as [|x p IH]; intros n n' H; simpl in *.
  - destruct n; [|discriminate]. now injection H as <-.
  - destruct n as [c0|es]; [discriminate|].
    destruct (assoc x es) as [child|] eqn:E.
    + destruct (write_file child p c) as [child'|] eqn:W; [|discriminate].
      injection H as <-. simpl.
      rewrite assoc_replace_same by congruence. eauto.
    + destruct p; [|discriminate]. injection H as <-. simpl.
      now rewrite assoc_app_new_same.
Qed.

(** Writing a file leaves alone every path that does not lead to it. *)
Lemma lookup_write_file_other (p : path) (c : content) :
  forall n n' q,
    write_file n p c = Some n' -> is_prefix q p = false ->
    lookup n' q = lookup n q.
Proof.
  induction p as [|x p IH]; intros n n' q H Q.
  - destruct q as [|y q]; [discriminate|]. simpl in H.
    destruct n; [|discriminate]. now injection H as <-.
  - destruct q as [|y q]; [discriminate|]. simpl in H, Q.
    destruct n as [c0|es]; [discriminate|].
    destruct (String.eqb_spec y x) as [->|N].
    + simpl in Q. destruct (assoc x es) as [child|] eqn:E.
      * destruct (write_file child p c) as [child'|] eqn:W; [|discriminate].
        injection H as <-. simpl.
        rewrite assoc_replace_same, E by congruence. eauto.
      * destruct p; [|discriminate]. injection H as <-. simpl.
        rewrite assoc_app_new_same, E by assumption.
        destruct q; [discriminate|reflexivity].
    + destruct (assoc x es) as [child|] eqn:E.
      * destruct (write_file child p c) as [child'|]; [|discriminate].
        injection H as <-. simpl. now rewrite assoc_replace_other.
      * destruct p; [|discriminate]. injection H as <-. simpl.
        now rewrite assoc_app_new_other.
Qed.

(** A file that is there can be written again. *)
Lemma write_file_again (p : path) (c c' : content) :
  forall n n', write_file n p c = Some n' ->
               write_file n' p c' = write_file n p c'.
Proof.
  induction p as [|x p IH]; intros n n' H; simpl in *.
  - destruct n; [|discriminate]. now injection H as <-.
  - destruct n as [c0|es]; [discriminate|].
    destruct (assoc x es) as [child|] eqn:E.
    + destruct (write_file child p c) as [child'|] eqn:W; [|discriminate].
      injection H as <-.
      rewrite assoc_replace_same by congruence.
      rewrite (IH _ _ W). destruct (write_file child p c'); [|reflexivity].
      now rewrite replace_replace.
    + destruct p; [|discriminate]. injection H as <-.
      rewrite assoc_app_new_same by assumption. simpl.
      now rewrite replace_app_new.
Qed.

Lemma write_file_twice (p : path) (c c' : content) (n n' : node) :
  write_file n p c = Some n' -> write_file n' p c' <> None.
Proof.
  revert n n'. induction p as [|x p IH]; intros n n' H; simpl in *.
  - destruct n; [|discriminate]. injection H as <-. discriminate.
  - destruct n as [c0|es]; [discriminate|].
    destruct (assoc x es) as [child|] eqn:E.
    + destruct (write_file child p c) as [child'|] eqn:W; [|discriminate].
      injection H as <-. rewrite assoc_replace_same by congruence.
      specialize (IH _ _ W). destruct (write_file child' p c'); congruence.
    + destruct p; [|discriminate]. injection H as <-.
      rewrite assoc_app_new_same by assumption. simpl. discriminate.
Qed.

(** ** Paths and member names *)

Lemma common_prefix_len_app (a q : path) :
  common_prefix_len a (a ++ q) = List.length a.
Proof.
  induction a as [|x a IH]; simpl; [now destruct q|].
  now rewrite String.eqb_refl, IH.
Qed.

(** Below [folder], the relative path is what follows [folder]. *)
Lemma relpath_under (folder q : path) :
  q <> [] -> relpath (folder ++ q) folder = sep_join q.
Proof.
  intros H. unfold relpath. rewrite common_prefix_len_app, Nat.sub_diag.
  rewrite skipn_app, Nat.sub_diag, skipn_all. simpl.
  destruct q; [contradiction|reflexivity].
Qed.

Lemma split_sep_plain (s : string) :
  has_sep s = false -> split_sep s = [s].
Proof.
  unfold has_sep. induction s as [|c s IH]; simpl; [reflexivity|].
  intros H. apply orb_false_iff in H. destruct H as [H1 H2].
  rewrite H1, IH by assumption. reflexivity.
Qed.

Lemma split_sep_app (s t : string) :
  has_sep s = false ->
  split_sep (s ++ String "/" t) = s :: split_sep t.
Proof.
  unfold has_sep. induction s as [|c s IH]; simpl; [reflexivity|].
  intros H. apply orb_false_iff in H. destruct H as [H1 H2].
  rewrite H1, IH by assumption. reflexivity.
Qed.

(** Splitting a joined name gives the components back. *)
Lemma split_sep_join (q : path) :
  q <> [] -> forallb valid_name q = true -> split_sep (sep_join q) = q.
Proof.
  destruct q as [|x q]; [contradiction|]. intros _.
  revert x. induction q as [|y q IH]; intros x H;
    simpl forallb in H; apply andb_prop in H; destruct H as [Hx Hq].
  - simpl. apply split_sep_plain.
    unfold valid_name in Hx. apply andb_prop in Hx. destruct Hx as [_ Hx].
    now apply negb_true_iff in Hx.
  - assert (S : has_sep x = false).
    { unfold valid_name in Hx. apply andb_prop in Hx. destruct Hx as [_ Hx].
      now apply negb_true_iff in Hx. }
    unfold sep_join in *.
    change (String.concat "/" (x :: y :: q))
      with (x ++ String "/" (String.concat "/" (y :: q)))%string.
    rewrite split_sep_app by assumption. f_equal. now apply IH.
Qed.


(** ** Loops *)

Lemma for_in_app {A S} (xs ys : list A) (body : A -> S -> S * outcome unit)
      (s : S) :
  for_in (xs ++ ys) body s =
  match for_in xs body s with
  | (s', Return _) => for_in ys body s'
  | (s', Raise e) => (s', Raise e)
  end.
Proof.
  revert s. induction xs as [|x xs IH]; intros s; simpl; [reflexivity|].
  destruct (body x s) as [s' [[]|e]]; [apply IH|reflexivity].
Qed.

(** ** The regular files below a directory *)

Lemma distinct_cons (x : string) (l : list string) :
  distinct (x :: l) = true -> ~ In x l /\ distinct l = true.
Proof.
  simpl. intros H. apply andb_prop in H. destruct H as [H1 H2].
  split; [|assumption]. intros Hin. apply negb_true_iff in H1.
  assert (X : existsb (String.eqb x) l = true).
  { apply existsb_exists. exists x. split; [assumption|apply String.eqb_refl]. }
  congruence.
Qed.

Lemma assoc_Some_In {A} (name : string) (v : A) (es : list (string * A)) :
  assoc name es = Some v -> In (name, v) es.
Proof.
  induction es as [|[k w] rest IH]; simpl; [discriminate|].
  destruct (String.eqb_spec name k) as [->|N]; intros H.
  - injection H as ->. now left.
  - right. auto.
Qed.

Lemma well_formed_parts (es : list (string * node)) :
  well_formed (Dir es) = true ->
  forallb valid_name (map fst es) = true
  /\ distinct (map fst es) = true
  /\ forall e, In e es -> well_formed (snd e) = true.
Proof.
  simpl. intros H. apply andb_prop in H. destruct H as [H H3].
  apply andb_prop in H. destruct H as [H1 H2].
  repeat split; try assumption. now apply forallb_forall.
Qed.







(** ** What is packed *)

Section ArchiveFacts.

Variable tempdir : path.
Variable deflate : list byte -> list byte.
Variable zip_encode : list member -> list byte.
Variable inflate : list byte -> list byte.

(** Deflate is lossless. *)
Hypothesis inflate_deflate : forall data, inflate (deflate data) = data.

Local Abbreviation bytes_of := (file_bytes zip_encode).

Local Abbreviation member_of := (member_of deflate zip_encode).
Local Abbreviation create_zip := (create_zip_from_folder tempdir deflate zip_encode).

Section OneFolder.

Variable fs : node.
Variable folder : path.

Local Abbreviation write_file_of root :=
  (fun file => zipf_write deflate zip_encode fs (root ++ [file])
                          (relpath (root ++ [file]) folder)).

(** The inner loop, over the file names of one directory. *)
Lemma files_of_directory_packed (sub : path) (es : list (string * node)) :
  lookup fs (folder ++ sub) = Some (Dir es) ->
  distinct (map fst es) = true ->
  forall l zipf,
    incl l es ->
    for_in (filenames l) (write_file_of (folder ++ sub)) zipf =
      (zipf ++ map (member_of sub)
                   (flat_map (fun e => match snd e with
                                       | File c => [([fst e], c)]
                                       | Dir _ => []
                                       end) l),
       Return tt).
Proof.
  intros Hl Hd. induction l as [|[name n] l IH]; intros zipf Hin.
  - simpl. now rewrite app_nil_r.
  - assert (Hn : lookup fs ((folder ++ sub) ++ [name]) = Some n).
    { rewrite lookup_app, Hl. simpl.
      rewrite (assoc_In name n es Hd) by (apply Hin; now left).
      reflexivity. }
    assert (Hrest : incl l es) by (intros x Hx; apply Hin; now right).
    destruct n as [c|sub_es].
    + unfold filenames. simpl. fold (filenames l).
      unfold zipf_write at 1. rewrite Hn.
      rewrite IH by assumption. rewrite <- app_assoc. simpl.
      rewrite <- (app_assoc folder sub [name]).
      rewrite relpath_under by (destruct sub; discriminate).
      reflexivity.
    + unfold filenames. simpl. fold (filenames l). now apply IH.
Qed.

Local Abbreviation pack_directory :=
  (fun '(root, dirs, files) => for_in files (write_file_of root)).

(** The outer loop over the sub-directories of one directory, given
    that each of them is packed as expected. *)
Lemma subdirectories_packed (sub : path) (es : list (string * node)) :
  lookup fs (folder ++ sub) = Some (Dir es) ->
  distinct (map fst es) = true ->
  (forall e, In e es ->
     forall sub' zipf,
       lookup fs (folder ++ sub') = Some (snd e) ->
       for_in (walk (folder ++ sub') (snd e)) pack_directory zipf =
         (zipf ++ map (member_of sub') (files_under (snd e)), Return tt)) ->
  forall l zipf,
    incl l es ->
    for_in (flat_map (fun e => walk ((folder ++ sub) ++ [fst e]) (snd e)) l)
           pack_directory zipf =
      (zipf ++ map (member_of sub)
                   (flat_map (fun e => map (fun pc => (fst e :: fst pc, snd pc))
                                           (files_under (snd e))) l),
       Return tt).
Proof.
  intros Hl Hd Hch. induction l as [|[name child] l IHl]; intros zipf Hin.
  - simpl. now rewrite app_nil_r.
  - assert (Hc : In (name, child) es) by (apply Hin; now left).
    assert (Hrest : incl l es) by (intros x Hx; apply Hin; now right).
    cbn [flat_map fst snd]. rewrite for_in_app.
    rewrite <- (app_assoc folder sub [name]).
    pose proof (Hch (name, child) Hc (sub ++ [name]) zipf) as R.
    cbn [snd] in R. rewrite R.
    + rewrite IHl by assumption. rewrite map_app, app_assoc, map_map.
      do 3 f_equal. apply map_ext. intros [q c]. unfold member_of. simpl.
      now rewrite <- app_assoc.
    + rewrite app_assoc, lookup_app, Hl. simpl.
      now rewrite (assoc_In name child es Hd Hc).
Qed.

(** The two loops together, over the walk of a well-formed tree found
    at [sub] below the folder. *)
Lemma walk_packed (n : node) :
  well_formed n = true ->
  forall sub zipf,
    lookup fs (folder ++ sub) = Some n ->
    for_in (walk (folder ++ sub) n) pack_directory zipf =
      (zipf ++ map (member_of sub) (files_under n), Return tt).
Proof.
  induction n as [c|es IH] using node_ind'; intros Hwf sub zipf Hl.
  - simpl. now rewrite app_nil_r.
  - destruct (well_formed_parts es Hwf) as (Hv & Hd & Hch).
    rewrite Forall_forall in IH.
    cbn [walk for_in].
    rewrite (files_of_directory_packed sub es Hl Hd es zipf (incl_refl es)).
    rewrite (subdirectories_packed sub es Hl Hd) by
      (auto using incl_refl).
    cbn [files_under]. now rewrite map_app, app_assoc.
Qed.

End OneFolder.

(** The function as a whole, on an existing well-formed directory that
    does not contain the place of the archive. *)
Lemma create_zip_packs (fs : node) (folder : path) (name : string)
      (es : list (string * node)) :
  let zip_path := tempdir ++ [name] in
  write_file fs zip_path (Zip []) <> None ->
  lookup fs folder = Some (Dir es) ->
  well_formed (Dir es) = true ->
  is_prefix folder zip_path = false ->
  exists fs2,
    create_zip fs folder name = (fs2, Return zip_path)
    /\ write_file fs zip_path (Zip (map (member_of []) (files_under (Dir es))))
       = Some fs2.
Proof.
  intros zip_path Hopen Hdir Hwf Hout.
  destruct (write_file fs zip_path (Zip [])) as [fs1|] eqn:W1; [|contradiction].
  assert (Hdir1 : lookup fs1 folder = Some (Dir es)).
  { rewrite <- Hdir. now apply (lookup_write_file_other zip_path (Zip [])). }
  pose proof (walk_packed fs1 folder (Dir es) Hwf [] []) as P.
  rewrite app_nil_r in P. specialize (P Hdir1). cbn [app] in P.
  unfold create_zip_from_folder. fold zip_path. rewrite W1.
  unfold write_members, os_walk. rewrite Hdir1.
  cbv zeta. rewrite P.
  rewrite (write_file_again zip_path (Zip []) _ fs fs1 W1).
  pose proof (write_file_twice zip_path (Zip [])
                (Zip (map (member_of []) (files_under (Dir es)))) fs fs1 W1) as T.
  rewrite (write_file_again zip_path (Zip []) _ fs fs1 W1) in T.
  destruct (write_file fs zip_path
              (Zip (map (member_of []) (files_under (Dir es)))))
    as [fs2|]; [|contradiction].
  exists fs2. split; reflexivity.
Qed.


Lemma is_prefix_app_false (a q z : path) :
  is_prefix a z = false -> is_prefix (a ++ q) z = false.
Proof.
  revert z. induction a as [|x a IH]; intros z; [discriminate|].
  destruct z as [|y z]; [reflexivity|]. simpl.
  destruct (String.eqb x y); [apply IH|reflexivity].
Qed.




(** What a call that returns has done. *)
Lemma create_zip_returns (fs fs' : node) (folder p : path) (name : string) :
  create_zip fs folder name = (fs', Return p) ->
  p = tempdir ++ [name]
  /\ exists opened members,
      write_file fs p (Zip []) = Some opened
      /\ write_members deflate zip_encode opened folder = (members, Return tt)
      /\ write_file fs p (Zip members) = Some fs'.
Proof.
  unfold create_zip_from_folder.
  destruct (write_file fs (tempdir ++ [name]) (Zip [])) as [opened|] eqn:W;
    [|discriminate].
  destruct (write_members deflate zip_encode opened folder) as [members r]
    eqn:B.
  pose proof (write_file_twice _ _ (Zip members) _ _ W) as T.
  rewrite (write_file_again _ _ (Zip members) _ _ W) in *.
  destruct (write_file fs (tempdir ++ [name]) (Zip members)) as [closed|] eqn:C;
    [|contradiction].
  destruct r as [[]|e]; intros H; [|discriminate].
  injection H as <- <-. split; [reflexivity|].
  exists opened, members. auto.
Qed.

(** C10. Two calls with the same archive name return the same path,
    the temporary directory joined with the name, whatever the folders
    are; after the second call the file at that path holds the members
    of the second call only, as if the first archive had never been
    written, and no other path of the disk has changed. *)
Theorem same_archive_name_overwrites
        (fs fs1 fs2 : node) (folder1 folder2 p1 p2 : path) (name : string) :
  create_zip fs folder1 name = (fs1, Return p1) ->
  create_zip fs1 folder2 name = (fs2, Return p2) ->
  p1 = tempdir ++ [name]
  /\ p2 = p1
  /\ (exists members1, lookup fs1 p1 = Some (File (Zip members1)))
  /\ (exists opened members2,
        write_file fs1 p1 (Zip []) = Some opened
        /\ write_members deflate zip_encode opened folder2
           = (members2, Return tt)
        /\ lookup fs2 p1 = Some (File (Zip members2))
        /\ write_file fs p1 (Zip members2) = Some fs2)
  /\ (forall q, is_prefix q p1 = false -> lookup fs2 q = lookup fs q).
Proof.
  intros H1 H2.
  apply create_zip_returns in H1. destruct H1 as (-> & o1 & m1 & O1 & B1 & C1).
  apply create_zip_returns in H2. destruct H2 as (-> & o2 & m2 & O2 & B2 & C2).
  split; [reflexivity|]. split; [reflexivity|].
  assert (C2' : write_file fs (tempdir ++ [name]) (Zip m2) = Some fs2).
  { now rewrite <- (write_file_again _ _ (Zip m2) _ _ C1). }
  split; [|split].
  - exists m1. exact (lookup_write_file _ _ _ _ C1).
  - exists o2, m2. repeat split; try assumption.
    exact (lookup_write_file _ _ _ _ C2).
  - intros q Hq. exact (lookup_write_file_other _ _ _ _ _ C2' Hq).
Qed.

End ArchiveFacts.

(** * The statements at sample inputs *)






Lemma same_archive_name_overwrites_witness :
  let tmp := ["tmp"%string] in
  let first := create_zip_from_folder tmp stored no_bytes sample_disk
                 ["tmp"; "run"]%string "extracted_frames.zip" in
  let second := create_zip_from_folder tmp stored no_bytes (fst first)
                  ["tmp"; "other"]%string "extracted_frames.zip" in
  snd first = Return ["tmp"; "extracted_frames.zip"]%string
  /\ snd second = Return ["tmp"; "extracted_frames.zip"]%string
  /\ lookup (fst second) ["tmp"; "extracted_frames.zip"]%string
     = Some (File (Zip [("a.bin"%string, [x05])]))
  /\ forall q, is_prefix q ["tmp"; "extracted_frames.zip"]%string = false ->
               lookup (fst second) q = lookup sample_disk q.
Proof.
  intros tmp first second.
  assert (E1 : first = (fst first, Return ["tmp"; "extracted_frames.zip"]%string))
    by reflexivity.
  assert (E2 : second = (fst second, Return ["tmp"; "extracted_frames.zip"]%string))
    by reflexivity.
  destruct (same_archive_name_overwrites tmp stored no_bytes sample_disk
              (fst first) (fst second) ["tmp"; "run"]%string
              ["tmp"; "other"]%string _ _ "extracted_frames.zip" E1 E2)
    as (_ & _ & _ & _ & F).
  repeat split; [exact F].
Defined.

(** * Further properties of the frame sampler *)

(** ** File names *)

Lemma append_inv_head (p a b : string) :
  (p ++ a)%string = (p ++ b)%string -> a = b.
Proof.
  induction p as [|c p IH]; simpl; intros H; [exact H|].
  injection H as H'. auto.
Qed.

Lemma append_assoc (a b c : string) :
  ((a ++ b) ++ c)%string = (a ++ (b ++ c))%string.
Proof. induction a as [|x a IH]; simpl; [reflexivity|now rewrite IH]. Qed.

Lemma length_append (a b : string) :
  String.length (a ++ b) = (String.length a + String.length b)%nat.
Proof. induction a as [|x a IH]; simpl; [reflexivity|now rewrite IH]. Qed.

Lemma append_inv_tail (s a b : string) :
  (a ++ s)%string = (b ++ s)%string -> a = b.
Proof.
  revert b. induction a as [|x a IH]; intros b H.
  - destruct b as [|y b]; [reflexivity|]. exfalso.
    apply (f_equal String.length) in H. simpl in H.
    rewrite length_append in H. lia.
  - destruct b as [|y b].
    + exfalso. apply (f_equal String.length) in H. simpl in H.
      rewrite length_append in H. lia.
    + simpl in H. injection H as -> H. f_equal. auto.
Qed.

Lemma read_digits_zeros (k : nat) (s : string) :
  read_digits (zeros k ++ s) = read_digits s.
Proof.
  induction k as [|k IH]; [reflexivity|].
  unfold read_digits in *. simpl.
  destruct (NilEmpty.uint_of_string (zeros k ++ s)) as [d|];
    destruct (NilEmpty.uint_of_string s) as [d'|]; simpl in *;
    try discriminate; try reflexivity.
  injection IH as IH. f_equal. exact IH.
Qed.

Lemma read_digits_str_nat (n : Z) :
  0 <= n -> read_digits (str_nat n) = Some (Z.to_N n).
Proof.
  intros _. unfold read_digits, str_nat.
  assert (NZ : N.to_uint (Z.to_N n) <> Decimal.Nil).
  { destruct (Z.to_N n) as [|p]; [discriminate|].
    simpl. intro H. apply (f_equal Pos.of_uint) in H.
    rewrite DecimalPos.Unsigned.of_to in H. discriminate. }
  pose proof (NilZero.usu _ NZ) as U.
  unfold NilZero.uint_of_string in U.
  destruct (NilZero.string_of_uint (N.to_uint (Z.to_N n))) eqn:E;
    [discriminate|].
  rewrite U. simpl. now rewrite DecimalN.Unsigned.of_to.
Qed.

(** Different sequence numbers give different formatted numbers. *)
Lemma format_04d_inj (a b : Z) :
  0 <= a -> 0 <= b -> format_04d a = format_04d b -> a = b.
Proof.
  intros Ha Hb. unfold format_04d.
  destruct (Z.ltb_spec a 0); [lia|]. destruct (Z.ltb_spec b 0); [lia|].
  unfold zfill. intros E. apply (f_equal read_digits) in E.
  rewrite !read_digits_zeros, !read_digits_str_nat in E by assumption.
  injection E as E. lia.
Qed.

Lemma frame_filename_inj (a b : Z) :
  0 <= a -> 0 <= b -> frame_filename a = frame_filename b -> a = b.
Proof.
  intros Ha Hb H. unfold frame_filename in H.
  apply append_inv_head, append_inv_tail in H. now apply format_04d_inj.
Qed.

Lemma path_join_inj (d a b : string) :
  startswith_sep a = false -> startswith_sep b = false ->
  path_join d a = path_join d b -> a = b.
Proof.
  unfold path_join. intros -> ->.
  destruct ((String.length d =? 0)%nat || endswith_sep d); intros H.
  - now apply append_inv_head in H.
  - apply append_inv_head in H. now injection H.
Qed.

Section SamplerFurther.

Variable Frame : Type.
Variable imencode : Frame -> list byte.

Local Abbreviation extract := (extract_frames_from_video imencode).
Local Abbreviation files := (numbered imencode).

Lemma numbered_names (d : string) (imgs : list Frame) :
  forall k p,
    In p (map fst (files d k imgs)) ->
    exists j, k <= j /\ p = path_join d (frame_filename j).
Proof.
  induction imgs as [|f rest IH]; intros k p H; simpl in H; [contradiction|].
  destruct H as [<-|H].
  - exists k. split; [lia|reflexivity].
  - apply IH in H. destruct H as (j & Hj & ->). exists j. split; [lia|reflexivity].
Qed.

Lemma numbered_nodup (d : string) (imgs : list Frame) :
  forall k, 0 <= k -> NoDup (map fst (files d k imgs)).
Proof.
  induction imgs as [|f rest IH]; intros k Hk; simpl; constructor.
  - intros H. apply numbered_names in H. destruct H as (j & Hj & E).
    apply path_join_inj in E; [|reflexivity|reflexivity].
    apply frame_filename_inj in E; lia.
  - apply IH. lia.
Qed.

(** X1. Within a run no two images are written under the same path:
    no saved frame overwrites another, however the run ends. *)
Theorem saved_files_have_distinct_names
        (cap : VideoCapture Frame) (t : Q) (d : string) :
  NoDup (map fst (written (fst (extract cap t d)))).
Proof.
  destruct (Z.eq_dec (frame_interval_of (CAP_PROP_FPS cap) t) 0) as [Z0|NZ].
  - destruct (read_frames cap) as [|f rest] eqn:F.
    + destruct cap as [fps total fr]. simpl in F. subst fr. constructor.
    + rewrite (extract_step_zero Frame imencode cap t d f rest Z0 F).
      constructor.
  - destruct (extract_state Frame imencode cap t d NZ) as (_ & _ & ->).
    apply numbered_nodup. lia.
Qed.

(** ** The sign of the interval *)

Lemma frame_interval_opp (fps t : Q) :
  frame_interval_of fps (- t) = - frame_interval_of fps t.
Proof.
  unfold frame_interval_of, int. destruct fps as [a b], t as [c e]. simpl.
  rewrite Z.mul_opp_r. apply Z.quot_opp_l. discriminate.
Qed.

Lemma multiple_opp (c s : Z) : (c mod - s =? 0) = (c mod s =? 0).
Proof.
  destruct (Z.eq_dec s 0) as [->|Hs]; [reflexivity|].
  destruct (Z.eq_dec (c mod s) 0) as [E|E].
  - rewrite (Z.mod_opp_r_z c s Hs E), E. reflexivity.
  - rewrite (Z.mod_opp_r_nz c s Hs E).
    assert (B : c mod s - s <> 0).
    { destruct (Z.lt_total s 0) as [L|[L|L]]; [|lia|].
      - pose proof (Z.mod_neg_bound c s L). lia.
      - pose proof (Z.mod_pos_bound c s L). lia. }
    apply Z.eqb_neq in E, B. now rewrite E, B.
Qed.

Lemma loop_body_opp (step total : Z) (d : string) (f : Frame) (s : state) :
  loop_body imencode (- step) total d f s = loop_body imencode step total d f s.
Proof.
  destruct s as [fc k w sh].
  unfold loop_body, bind, get, lift, mod_. cbn [frame_count].
  assert (E : (- step =? 0) = (step =? 0)).
  { destruct (Z.eqb_spec step 0) as [->|N]; [reflexivity|].
    apply Z.eqb_neq. lia. }
  rewrite E. destruct (step =? 0); [reflexivity|].
  now rewrite multiple_opp.
Qed.

Lemma loop_opp (step total : Z) (d : string) (frames : list Frame) :
  forall s, loop imencode (- step) total d frames s
            = loop imencode step total d frames s.
Proof.
  induction frames as [|f rest IH]; intros s; [reflexivity|].
  cbn [loop]. unfold bind. rewrite loop_body_opp.
  destruct (loop_body imencode step total d f s) as [s' [[]|e]];
    [apply IH|reflexivity].
Qed.

(** X2. The sign of the interval plays no part: a negative interval
    is not rejected and gives the very run of its absolute value. *)
Theorem interval_sign_ignored
        (cap : VideoCapture Frame) (t : Q) (d : string) :
  extract cap (- t) d = extract cap t d.
Proof.
  unfold extract_frames_from_video, bind.
  now rewrite frame_interval_opp, loop_opp.
Qed.

(** ** When the remainder raises *)



(** X4. When the container declares 0 frames, a call with a non-zero
    step writes the first frame as [frame_0000.jpg], then stops with
    [ZeroDivisionError]: one image on disk, no count returned. *)
Theorem zero_total_stops_after_first_frame
        (cap : VideoCapture Frame) (t : Q) (d : string)
        (f : Frame) (rest : list Frame) :
  frame_interval_of (CAP_PROP_FPS cap) t <> 0 ->
  int (CAP_PROP_FRAME_COUNT cap) = 0 ->
  read_frames cap = f :: rest ->
  extract cap t d =
    (mkState 1 1 [(path_join d (frame_filename 0), imencode f)] [0%Q],
     Raise ZeroDivisionError).
Proof.
  intros Hs Ht Hf.
  rewrite (extract_total_zero Frame imencode cap t d f rest Hs Ht Hf).
  cbn [picked]. rewrite Zmod_0_l. reflexivity.
Qed.

(** ** An interval longer than the video *)

Lemma picked_none (step : Z) (frames : list Frame) :
  forall c, 0 < c -> c + Z.of_nat (List.length frames) <= step ->
            picked step c frames = [].
Proof.
  induction frames as [|f rest IH]; intros c Hc Hb; [reflexivity|].
  cbn [List.length] in Hb. simpl.
  rewrite Z.mod_small by lia.
  destruct (Z.eqb_spec c 0); [lia|]. apply IH; lia.
Qed.

(** X5. When the frame step is at least the number of frames, one
    image is saved, the first frame, and the count returned is 1. *)
Theorem interval_longer_than_video
        (cap : VideoCapture Frame) (t : Q) (d : string)
        (f : Frame) (rest : list Frame) :
  read_frames cap = f :: rest ->
  Z.of_nat (List.length (f :: rest)) <= frame_interval_of (CAP_PROP_FPS cap) t ->
  0 < int (CAP_PROP_FRAME_COUNT cap) ->
  snd (extract cap t d) = Return (1, d)
  /\ written (fst (extract cap t d))
     = [(path_join d (frame_filename 0), imencode f)].
Proof.
  intros Hf Hs Ht. cbn [List.length] in Hs.
  rewrite extract_runs by lia. rewrite Hf. cbn [fst snd written].
  cbn [picked]. rewrite Zmod_0_l. cbn [Z.eqb].
  rewrite picked_none by lia. split; reflexivity.
Qed.

(** ** A stream cut short *)

Lemma picked_app (step : Z) (a b : list Frame) :
  forall c, picked step c (a ++ b)
            = picked step c a ++ picked step (c + Z.of_nat (List.length a)) b.
Proof.
  induction a as [|f a IH]; intros c.
  - simpl. now rewrite Z.add_0_r.
  - cbn [app picked List.length]. rewrite IH.
    replace (c + 1 + Z.of_nat (List.length a))
      with (c + Z.of_nat (S (List.length a))) by lia.
    now destruct (c mod step =? 0).
Qed.

(** X6. If the source stops delivering frames early, what has been
    saved is the beginning of what the full source gives: same files,
    same names, same order, and the count returned is not larger. *)
Theorem shorter_stream_saves_a_prefix
        (fps total t : Q) (d : string) (a b : list Frame) :
  frame_interval_of fps t <> 0 -> 0 < int total ->
  let short := extract (mkCapture fps total a) t d in
  let full := extract (mkCapture fps total (a ++ b)) t d in
  exists more k_short k_full,
    written (fst full) = written (fst short) ++ more
    /\ snd short = Return (k_short, d)
    /\ snd full = Return (k_full, d)
    /\ k_short <= k_full.
Proof.
  intros Hs Ht short full. unfold short, full.
  rewrite !extract_runs by (cbn; lia). cbn [fst snd written read_frames CAP_PROP_FPS].
  rewrite picked_app, numbered_app, length_app.
  eexists _, _, _. repeat split. lia.
Qed.

(** ** The fraction shown frame by frame *)




End SamplerFurther.

(** * Further properties of the archive builder *)

(** Writing a file makes no directory. *)
Lemma write_file_keeps_directories (p : path) (c : content) :
  forall n n' q es',
    write_file n p c = Some n' ->
    lookup n' q = Some (Dir es') ->
    exists es, lookup n q = Some (Dir es).
Proof.
  induction p as [|x p IH]; intros n n' q es' W L.
  - simpl in W. destruct n; [|discriminate]. injection W as <-.
    destruct q; simpl in L; discriminate.
  - simpl in W. destruct n as [c0|es]; [discriminate|].
    destruct q as [|y q]; [now exists es|]. simpl.
    destruct (assoc x es) as [child|] eqn:E.
    + destruct (write_file child p c) as [child'|] eqn:W'; [|discriminate].
      injection W as <-. simpl in L.
      destruct (String.eqb_spec y x) as [->|N].
      * rewrite assoc_replace_same in L by congruence. rewrite E. eauto.
      * rewrite assoc_replace_other in L by assumption.
        destruct (assoc y es); eauto.
    + destruct p; [|discriminate]. injection W as <-. simpl in L.
      destruct (String.eqb_spec y x) as [->|N].
      * rewrite assoc_app_new_same in L by assumption.
        destruct q; simpl in L; discriminate.
      * rewrite assoc_app_new_other in L by assumption.
        destruct (assoc y es); eauto.
Qed.

(** No file can be created at [p ++ [name]] when [p] is not a
    directory, or when [name] is a directory in it. *)
Lemma write_file_fails (c : content) (name : string) (p : path) :
  forall n,
    (forall es, lookup n p <> Some (Dir es))
    \/ (exists es, lookup n (p ++ [name]) = Some (Dir es)) ->
    write_file n (p ++ [name]) c = None.
Proof.
  induction p as [|x p IH]; intros n H; simpl in *.
  - destruct n as [c0|es]; [reflexivity|].
    destruct H as [H|(es' & H)]; [now destruct (H es)|].
    destruct (assoc name es) as [child|]; [|discriminate].
    injection H as ->. reflexivity.
  - destruct n as [c0|es]; [reflexivity|].
    destruct (assoc x es) as [child|].
    + now rewrite IH.
    + now destruct p.
Qed.

Section ArchiveFurther.

Variable tempdir : path.
Variable deflate : list byte -> list byte.
Variable zip_encode : list member -> list byte.

Local Abbreviation create_zip :=
  (create_zip_from_folder tempdir deflate zip_encode).

Lemma create_zip_elsewhere
      (fs : node) (folder : path) (name : string) (q : path) :
  is_prefix q (tempdir ++ [name]) = false ->
  lookup (fst (create_zip fs folder name)) q = lookup fs q.
Proof.
  intros Hq. unfold create_zip_from_folder.
  destruct (write_file fs (tempdir ++ [name]) (Zip [])) as [fs1|] eqn:W;
    [|reflexivity].
  destruct (write_members deflate zip_encode fs1 folder) as [zipf r].
  pose proof (write_file_twice _ _ (Zip zipf) _ _ W) as T.
  destruct (write_file fs1 (tempdir ++ [name]) (Zip zipf)) as [fs2|] eqn:C;
    [|contradiction].
  assert (E : lookup fs2 q = lookup fs q).
  { rewrite (lookup_write_file_other _ _ _ _ _ C Hq).
    exact (lookup_write_file_other _ _ _ _ _ W Hq). }
  destruct r; exact E.
Qed.

(** X8. Whatever its outcome, a call changes nothing on the disk
    but the archive file: the folder, when the archive is not inside
    it, and every other path are as before. *)
Theorem only_the_archive_changes
        (fs : node) (folder : path) (name : string) :
  (forall q, is_prefix q (tempdir ++ [name]) = false ->
             lookup (fst (create_zip fs folder name)) q = lookup fs q)
  /\ (is_prefix folder (tempdir ++ [name]) = false ->
      forall q, lookup (fst (create_zip fs folder name)) (folder ++ q)
                = lookup fs (folder ++ q)).
Proof.
  split.
  - intros q. apply create_zip_elsewhere.
  - intros H q. apply create_zip_elsewhere. now apply is_prefix_app_false.
Qed.

(** X9. A folder that does not exist, or is not a directory, is no
    error: the call returns the archive path and the archive is
    empty. *)
Theorem missing_folder_gives_empty_archive
        (fs : node) (folder : path) (name : string) :
  (forall es, lookup fs folder <> Some (Dir es)) ->
  write_file fs (tempdir ++ [name]) (Zip []) <> None ->
  exists fs2,
    create_zip fs folder name = (fs2, Return (tempdir ++ [name]))
    /\ lookup fs2 (tempdir ++ [name]) = Some (File (Zip [])).
Proof.
  intros Hmiss Hopen. unfold create_zip_from_folder.
  destruct (write_file fs (tempdir ++ [name]) (Zip [])) as [fs1|] eqn:W;
    [|contradiction].
  assert (E : write_members deflate zip_encode fs1 folder = ([], Return tt)).
  { unfold write_members, os_walk.
    destruct (lookup fs1 folder) as [[c|es']|] eqn:L; try reflexivity.
    destruct (write_file_keeps_directories _ _ _ _ _ _ W L) as (es & H).
    now destruct (Hmiss es). }
  rewrite E.
  pose proof (write_file_twice _ _ (Zip []) _ _ W) as T.
  destruct (write_file fs1 (tempdir ++ [name]) (Zip [])) as [fs2|] eqn:C;
    [|contradiction].
  exists fs2. split; [reflexivity|]. exact (lookup_write_file _ _ _ _ C).
Qed.

(** X10. When the temporary directory is not a directory, or a
    directory sits at the archive path, the call raises [OSError] and
    the disk is as before. *)
Theorem unopenable_archive_raises
        (fs : node) (folder : path) (name : string) :
  (forall es, lookup fs tempdir <> Some (Dir es))
  \/ (exists es, lookup fs (tempdir ++ [name]) = Some (Dir es)) ->
  create_zip fs folder name = (fs, Raise OSError).
Proof.
  intros H. unfold create_zip_from_folder.
  now rewrite (write_file_fails (Zip []) name tempdir fs H).
Qed.

(** X11. Building the archive again, on the disk the first build
    left, gives the same disk and the same outcome: the archive is
    rebuilt member for member. *)
Theorem rebuilding_changes_nothing
        (fs fs1 : node) (folder : path) (name : string)
        (r : outcome path) :
  is_prefix folder (tempdir ++ [name]) = false ->
  write_file fs (tempdir ++ [name]) (Zip []) <> None ->
  create_zip fs folder name = (fs1, r) ->
  create_zip fs1 folder name = (fs1, r).
Proof.
  intros _ Hopen H. unfold create_zip_from_folder in *.
  destruct (write_file fs (tempdir ++ [name]) (Zip [])) as [opened|] eqn:W;
    [|contradiction].
  destruct (write_members deflate zip_encode opened folder) as [zipf o] eqn:B.
  pose proof (write_file_twice _ _ (Zip zipf) _ _ W) as T.
  destruct (write_file opened (tempdir ++ [name]) (Zip zipf)) as [closed|] eqn:C;
    [|contradiction].
  assert (E : fs1 = closed) by (destruct o; now injection H).
  subst fs1.
  rewrite (write_file_again _ _ (Zip []) _ _ C).
  rewrite (write_file_again _ _ (Zip []) _ _ W), W, B, C.
  destruct o; injection H as <-; reflexivity.
Qed.

End ArchiveFurther.

(** ** Flat and empty folders *)


Lemma files_under_without_file (n : node) :
  has_file n = false -> files_under n = [].
Proof.
  induction n as [c|es IH] using node_ind'; intros H; [discriminate|].
  cbn [has_file files_under] in *. rewrite Forall_forall in IH.
  assert (A : forall l, incl l es ->
             existsb (fun e => has_file (snd e)) l = false ->
             flat_map (fun e : string * node =>
                         match snd e with
                         | File c => [([fst e], c)]
                         | Dir _ => []
                         end) l = []
             /\ flat_map (fun e : string * node =>
                           map (fun pc => (fst e :: fst pc, snd pc))
                               (files_under (snd e))) l = []).
  { induction l as [|[name child] l IHl]; intros Hin Hl; [now split|].
    simpl in Hl. apply orb_false_iff in Hl. destruct Hl as [Hc Hl].
    destruct (IHl (fun x Hx => Hin x (or_intror Hx)) Hl) as [A1 A2].
    pose proof (IH (name, child) (Hin _ (or_introl eq_refl)) Hc) as I.
    cbn [flat_map fst snd] in *. rewrite A1, A2, I.
    destruct child; [discriminate|]. now split. }
  destruct (A es (incl_refl es) H) as [-> ->]. reflexivity.
Qed.

Section ArchiveShapes.

Variable tempdir : path.
Variable deflate : list byte -> list byte.
Variable zip_encode : list member -> list byte.

Local Abbreviation create_zip :=
  (create_zip_from_folder tempdir deflate zip_encode).



(** X13. Directories are not stored: a folder below which there is
    no regular file, only directories, gives an archive without
    members, so that unpacking does not bring the directories back. *)
Theorem directories_are_not_stored
        (fs : node) (folder : path) (name : string)
        (es : list (string * node)) :
  write_file fs (tempdir ++ [name]) (Zip []) <> None ->
  lookup fs folder = Some (Dir es) ->
  well_formed (Dir es) = true ->
  is_prefix folder (tempdir ++ [name]) = false ->
  has_file (Dir es) = false ->
  exists fs2,
    create_zip fs folder name = (fs2, Return (tempdir ++ [name]))
    /\ lookup fs2 (tempdir ++ [name]) = Some (File (Zip [])).
Proof.
  intros Hopen Hdir Hwf Hout Hnone.
  destruct (create_zip_packs tempdir deflate zip_encode fs folder name es
              Hopen Hdir Hwf Hout) as (fs2 & R & W).
  exists fs2. split; [exact R|].
  rewrite (files_under_without_file _ Hnone) in W.
  exact (lookup_write_file _ _ _ _ W).
Qed.

End ArchiveShapes.

(** * Properties of the page *)

(** ** Path strings *)

Lemma valid_name_parts (s : string) :
  valid_name s = true -> s <> ""%string /\ has_sep s = false.
Proof.
  unfold valid_name. intros H.
  apply andb_prop in H. destruct H as [H Hs].
  apply andb_prop in H. destruct H as [H _].
  apply andb_prop in H. destruct H as [H _].
  apply negb_true_iff in H, Hs. split; [|exact Hs].
  intros ->. discriminate.
Qed.

Lemma filter_valid_names (p : path) :
  forallb valid_name p = true ->
  filter (fun c => negb (String.eqb c "")) p = p.
Proof.
  induction p as [|x p IH]; simpl; [reflexivity|].
  intros H. apply andb_prop in H. destruct H as [Hx Hp].
  destruct (valid_name_parts x Hx) as [N _].
  apply String.eqb_neq in N. rewrite N. simpl. now rewrite IH.
Qed.

(** The components of the string of a path are the path. *)
Lemma abs_components_path_string (p : path) :
  forallb valid_name p = true -> abs_components (path_string p) = p.
Proof.
  intros H. unfold abs_components, path_string. cbn [split_sep].
  change (Ascii.eqb "/" "/") with true. cbn [filter String.eqb negb].
  destruct p as [|x p]; [reflexivity|].
  rewrite split_sep_join by (assumption || discriminate).
  now apply filter_valid_names.
Qed.

Lemma endswith_sep_app (a b : string) :
  b <> ""%string -> endswith_sep (a ++ b) = endswith_sep b.
Proof.
  intros Hb. induction a as [|c a IH]; [reflexivity|].
  cbn [append endswith_sep]. rewrite IH.
  destruct (a ++ b)%string eqn:E; [|reflexivity].
  destruct a; simpl in E; [contradiction|discriminate].
Qed.

Lemma endswith_sep_plain (s : string) :
  has_sep s = false -> endswith_sep s = false.
Proof.
  unfold has_sep. induction s as [|c s IH]; [reflexivity|].
  simpl. intros H. apply orb_false_iff in H. destruct H as [Hc Hs].
  destruct s; [exact Hc|]. now apply IH.
Qed.

Lemma sep_join_snoc (p : path) (name : string) :
  p <> [] -> sep_join (p ++ [name]) = (sep_join p ++ String "/" name)%string.
Proof.
  unfold sep_join. induction p as [|x p IH]; [contradiction|]. intros _.
  destruct p as [|y p]; [reflexivity|].
  change (String.concat "/" ((x :: y :: p) ++ [name]))
    with (x ++ String "/" (String.concat "/" ((y :: p) ++ [name])))%string.
  rewrite IH by discriminate.
  change (String.concat "/" (x :: y :: p))
    with (x ++ String "/" (String.concat "/" (y :: p)))%string.
  now rewrite append_assoc.
Qed.

Lemma endswith_sep_join (p : path) :
  p <> [] -> forallb valid_name p = true -> endswith_sep (sep_join p) = false.
Proof.
  intros Hp. destruct p as [|x p]; [contradiction|]. clear Hp. revert x.
  induction p as [|y p IH]; intros x H;
    simpl in H; apply andb_prop in H; destruct H as [Hx Hp].
  - apply endswith_sep_plain. now apply valid_name_parts.
  - unfold sep_join in *.
    change (String.concat "/" (x :: y :: p))
      with (x ++ String "/" (String.concat "/" (y :: p)))%string.
    assert (N : String.concat "/" (y :: p) <> ""%string).
    { apply andb_prop in Hp. destruct Hp as [Hy _].
      destruct (valid_name_parts y Hy) as [Ny _].
      destruct y; [contradiction|]. destruct p; discriminate. }
    rewrite endswith_sep_app by discriminate.
    cbn [endswith_sep].
    destruct (String.concat "/" (y :: p)) eqn:E; [contradiction|].
    rewrite <- E. apply IH. exact Hp.
Qed.

(** Joining a file name to the string of a directory gives the string
    of the file's path. *)
Lemma path_join_path_string (p : path) (name : string) :
  p <> [] -> forallb valid_name p = true -> valid_name name = true ->
  path_join (path_string p) name = path_string (p ++ [name]).
Proof.
  intros Hp Hv Hn. destruct (valid_name_parts name Hn) as [Ne Hs].
  unfold path_join, path_string.
  assert (S : startswith_sep name = false).
  { destruct name as [|c name]; [contradiction|].
    unfold has_sep in Hs. simpl in Hs. apply orb_false_iff in Hs.
    now destruct Hs. }
  rewrite S. cbn [String.length Nat.eqb orb].
  assert (E : endswith_sep (String "/" (sep_join p)) = false).
  { cbn [endswith_sep]. pose proof (endswith_sep_join p Hp Hv) as J.
    destruct (sep_join p) eqn:Q; [|exact J].
    destruct p as [|x p]; [contradiction|].
    simpl in Hv. apply andb_prop in Hv. destruct Hv as [Hx _].
    destruct (valid_name_parts x Hx) as [Nx _].
    unfold sep_join in Q. destruct x; [contradiction|].
    destruct p; discriminate. }
  rewrite E. rewrite sep_join_snoc by assumption. reflexivity.
Qed.

Lemma forallb_valid_snoc (p : path) (name : string) :
  forallb valid_name p = true -> valid_name name = true ->
  forallb valid_name (p ++ [name]) = true.
Proof. intros Hp Hn. rewrite forallb_app, Hp. simpl. now rewrite Hn. Qed.

(** ** The names of the saved images *)

Lemma has_sep_append (a b : string) :
  has_sep (a ++ b) = has_sep a || has_sep b.
Proof.
  unfold has_sep. induction a as [|c a IH]; [reflexivity|].
  simpl. now rewrite IH, orb_assoc.
Qed.

Lemma digits_have_no_sep (d : Decimal.uint) :
  has_sep (NilEmpty.string_of_uint d) = false.
Proof. induction d; simpl; auto. Qed.

Lemma format_04d_no_sep (k : Z) : 0 <= k -> has_sep (format_04d k) = false.
Proof.
  intros Hk. unfold format_04d. destruct (Z.ltb_spec k 0); [lia|].
  unfold zfill. rewrite has_sep_append.
  assert (Z0 : forall n, has_sep (zeros n) = false)
    by (induction n; simpl; auto).
  rewrite Z0. unfold str_nat, NilZero.string_of_uint.
  destruct (N.to_uint (Z.to_N k)) eqn:E; try reflexivity;
    rewrite <- E; apply digits_have_no_sep.
Qed.

Lemma frame_filename_valid (k : Z) :
  0 <= k -> valid_name (frame_filename k) = true.
Proof.
  intros Hk. unfold valid_name.
  assert (S : has_sep (frame_filename k) = false).
  { unfold frame_filename. rewrite !has_sep_append, format_04d_no_sep by lia.
    reflexivity. }
  rewrite S. reflexivity.
Qed.




(** ** Files and directories of the disk *)

Lemma distinct_snoc (es : list string) (x : string) :
  distinct es = true -> ~ In x es -> distinct (es ++ [x]) = true.
Proof.
  induction es as [|y es IH]; intros D N; [reflexivity|].
  apply distinct_cons in D. destruct D as [Dy D].
  cbn [app distinct]. rewrite IH by (assumption || (intro; apply N; now right)).
  rewrite andb_true_r. apply negb_true_iff.
  destruct (existsb (String.eqb y) (es ++ [x])) eqn:E; [|reflexivity].
  apply existsb_exists in E. destruct E as (z & Hz & Ez).
  apply String.eqb_eq in Ez. subst z. apply in_app_iff in Hz.
  destruct Hz as [Hz|[<-|[]]]; [contradiction|].
  exfalso. apply N. now left.
Qed.

Lemma assoc_None_not_In {A} (name : string) (es : list (string * A)) :
  assoc name es = None -> ~ In name (map fst es).
Proof.
  induction es as [|[k v] es IH]; simpl; [tauto|].
  destruct (String.eqb_spec name k) as [->|N]; [discriminate|].
  intros H [E|E]; [congruence|]. now apply IH.
Qed.

Lemma map_fst_replace {A} (name : string) (v : A) (es : list (string * A)) :
  map fst (replace name v es) = map fst es.
Proof.
  induction es as [|[k w] es IH]; simpl; [reflexivity|].
  destruct (String.eqb name k); simpl; [reflexivity|now rewrite IH].
Qed.

Lemma assoc_remove_entry_same {A} (name : string) (es : list (string * A)) :
  distinct (map fst es) = true -> assoc name (remove_entry name es) = None.
Proof.
  induction es as [|[k v] es IH]; simpl; [reflexivity|]. intros D.
  apply andb_prop in D. destruct D as [Dk D].
  destruct (String.eqb_spec name k) as [->|N].
  - destruct (assoc k es) as [w|] eqn:E; [|reflexivity].
    apply assoc_Some_In in E. apply negb_true_iff in Dk.
    assert (X : existsb (String.eqb k) (map fst es) = true).
    { apply existsb_exists. exists k. split;
        [apply (in_map fst _ _ E)|apply String.eqb_refl]. }
    congruence.
  - simpl. apply String.eqb_neq in N. rewrite N. auto.
Qed.

Lemma assoc_remove_entry_other {A} (name name' : string)
      (es : list (string * A)) :
  name' <> name -> assoc name' (remove_entry name es) = assoc name' es.
Proof.
  intros N. induction es as [|[k v] es IH]; simpl; [reflexivity|].
  destruct (String.eqb_spec name k) as [->|M].
  - apply String.eqb_neq in N. now rewrite N.
  - simpl. now rewrite IH.
Qed.

(** A new file in a directory comes last in it. *)
Lemma write_file_new (c : content) (name : string) (parent : path) :
  forall n es,
    lookup n parent = Some (Dir es) -> assoc name es = None ->
    exists n', write_file n (parent ++ [name]) c = Some n'
               /\ lookup n' parent = Some (Dir (es ++ [(name, File c)])).
Proof.
  induction parent as [|x parent IH]; intros n es L A; simpl in *.
  - injection L as ->. rewrite A. eexists. split; reflexivity.
  - destruct n as [c0|es0]; [discriminate|].
    destruct (assoc x es0) as [child|] eqn:E; [|discriminate].
    destruct (IH child es L A) as (child' & W & L').
    rewrite W. eexists. split; [reflexivity|]. simpl.
    now rewrite assoc_replace_same by congruence.
Qed.


(** Writing a file keeps the names of every directory pairwise
    different. *)
Lemma write_file_keeps_distinct (c : content) (p : path) :
  forall n n' q es,
    write_file n p c = Some n' ->
    lookup n q = Some (Dir es) -> distinct (map fst es) = true ->
    exists es', lookup n' q = Some (Dir es')
                /\ distinct (map fst es') = true.
Proof.
  induction p as [|x p IH]; intros n n' q es W L D.
  - simpl in W. destruct n; [|discriminate].
    destruct q; simpl in L; discriminate.
  - simpl in W. destruct n as [c0|es0]; [discriminate|].
    destruct (assoc x es0) as [child|] eqn:E.
    + destruct (write_file child p c) as [child'|] eqn:W'; [|discriminate].
      injection W as <-. destruct q as [|y q].
      * simpl in L. injection L as <-. eexists. split; [reflexivity|].
        now rewrite map_fst_replace.
      * simpl in *. destruct (String.eqb_spec y x) as [->|N].
        -- rewrite E in L. rewrite assoc_replace_same by congruence. eauto.
        -- rewrite assoc_replace_other by assumption.
           destruct (assoc y es0); [eauto|discriminate].
    + destruct p; [|discriminate]. injection W as <-. destruct q as [|y q].
      * simpl in L. injection L as <-. eexists. split; [reflexivity|].
        rewrite map_app. apply distinct_snoc; [assumption|].
        now apply assoc_None_not_In.
      * simpl in *. destruct (String.eqb_spec y x) as [->|N].
        -- rewrite E in L. discriminate.
        -- rewrite assoc_app_new_other by assumption.
           destruct (assoc y es0); [eauto|discriminate].
Qed.

(** A new directory comes last in its parent, and is empty. *)
Lemma mkdir_new (name : string) (parent : path) :
  forall n es,
    lookup n parent = Some (Dir es) -> assoc name es = None ->
    exists n', mkdir n (parent ++ [name]) = Some n'
               /\ lookup n' parent = Some (Dir (es ++ [(name, Dir [])])).
Proof.
  induction parent as [|x parent IH]; intros n es L A; simpl in *.
  - injection L as ->. rewrite A. eexists. split; reflexivity.
  - destruct n as [c0|es0]; [discriminate|].
    destruct (assoc x es0) as [child|] eqn:E; [|discriminate].
    destruct (IH child es L A) as (child' & W & L').
    rewrite W. eexists. split; [reflexivity|]. simpl.
    now rewrite assoc_replace_same by congruence.
Qed.

Lemma lookup_mkdir_other (p : path) :
  forall n n' q,
    mkdir n p = Some n' -> is_prefix q p = false ->
    lookup n' q = lookup n q.
Proof.
  induction p as [|x p IH]; intros n n' q H Q; [discriminate|].
  destruct q as [|y q]; [discriminate|]. simpl in H, Q.
  destruct n as [c0|es]; [discriminate|].
  destruct (String.eqb_spec y x) as [->|N].
  - simpl in Q. destruct (assoc x es) as [child|] eqn:E.
    + destruct (mkdir child p) as [child'|] eqn:W; [|discriminate].
      injection H as <-. simpl.
      rewrite assoc_replace_same, E by congruence. eauto.
    + destruct p; [|discriminate]. injection H as <-. simpl.
      rewrite assoc_app_new_same, E by assumption.
      destruct q; [discriminate|reflexivity].
  - destruct (assoc x es) as [child|] eqn:E.
    + destruct (mkdir child p) as [child'|]; [|discriminate].
      injection H as <-. simpl. now rewrite assoc_replace_other.
    + destruct p; [|discriminate]. injection H as <-. simpl.
      now rewrite assoc_app_new_other.
Qed.

(** Removing a file takes it out of its directory. *)
Lemma unlink_file (name : string) (c : content) (parent : path) :
  forall n es,
    lookup n parent = Some (Dir es) -> assoc name es = Some (File c) ->
    exists n', unlink n (parent ++ [name]) = Some n'
               /\ lookup n' parent = Some (Dir (remove_entry name es)).
Proof.
  induction parent as [|x parent IH]; intros n es L A; simpl in *.
  - injection L as ->. rewrite A. eexists. split; reflexivity.
  - destruct n as [c0|es0]; [discriminate|].
    destruct (assoc x es0) as [child|] eqn:E; [|discriminate].
    destruct (IH child es L A) as (child' & W & L').
    destruct (parent ++ [name]) eqn:P; [now destruct parent|].
    rewrite W. eexists. split; [reflexivity|]. simpl.
    now rewrite assoc_replace_same by congruence.
Qed.


Lemma lookup_child (n : node) (p : path) (name : string)
      (es : list (string * node)) :
  lookup n p = Some (Dir es) ->
  lookup n (p ++ [name]) = assoc name es.
Proof.
  intros L. rewrite lookup_app, L. simpl. now destruct (assoc name es).
Qed.

Lemma is_prefix_diverge (p r r' : path) (x y : string) :
  x <> y -> is_prefix (p ++ x :: r) (p ++ y :: r') = false.
Proof.
  intros N. induction p as [|z p IH]; simpl.
  - apply String.eqb_neq in N. now rewrite N.
  - now rewrite String.eqb_refl.
Qed.

Lemma assoc_not_In {A} (name : string) (es : list (string * A)) :
  ~ In name (map fst es) -> assoc name es = None.
Proof.
  induction es as [|[k v] es IH]; simpl; [reflexivity|]. intros H.
  destruct (String.eqb_spec name k) as [->|N]; [tauto|]. apply IH. tauto.
Qed.

(** ** The images on the disk *)

Section Stored.

Variable Frame : Type.
Variable imencode : Frame -> list byte.
Variable tempdir : path.
Variable d : string.

Hypothesis tempdir_valid : forallb valid_name tempdir = true.
Hypothesis d_valid : valid_name d = true.

Local Abbreviation dir := (tempdir ++ [d]).

Lemma numbered_frame_files (out : string) (imgs : list Frame) :
  forall k, numbered imencode out k imgs
            = map (fun nb => (path_join out (fst nb), snd nb))
                  (frame_files imencode k imgs).
Proof.
  induction imgs as [|f rest IH]; intros k; simpl; [reflexivity|].
  now rewrite IH.
Qed.


Lemma frame_file_path (k : Z) :
  0 <= k ->
  abs_components (path_join (path_string dir) (frame_filename k))
  = dir ++ [frame_filename k].
Proof.
  intros Hk.
  assert (V : forallb valid_name dir = true)
    by now apply forallb_valid_snoc.
  rewrite path_join_path_string;
    [|now destruct tempdir|exact V|now apply frame_filename_valid].
  apply abs_components_path_string, forallb_valid_snoc;
    [exact V|now apply frame_filename_valid].
Qed.

(** Storing the files of a run in the directory of the run: they come
    after what the directory holds, other entries of the temporary
    directory are as before, and names stay pairwise different. *)
Lemma store_written_frames (imgs : list Frame) :
  forall k fs acc,
    0 <= k ->
    lookup fs dir = Some (Dir (map file_entry acc)) ->
    (forall n, In n (map fst acc) -> exists j, 0 <= j < k /\ n = frame_filename j) ->
    let fs' := store_written fs (numbered imencode (path_string dir) k imgs) in
    lookup fs' dir
    = Some (Dir (map file_entry (acc ++ frame_files imencode k imgs)))
    /\ (forall x r, x <> d ->
                    lookup fs' (tempdir ++ x :: r) = lookup fs (tempdir ++ x :: r))
    /\ (forall es, lookup fs tempdir = Some (Dir es) ->
                   distinct (map fst es) = true ->
                   exists es', lookup fs' tempdir = Some (Dir es')
                               /\ distinct (map fst es') = true).
Proof.
  induction imgs as [|f rest IH]; intros k fs acc Hk L Hacc.
  - simpl. rewrite app_nil_r. repeat split; eauto.
  - cbn [numbered store_written]. rewrite frame_file_path by assumption.
    assert (A : assoc (frame_filename k) (map file_entry acc) = None).
    { apply assoc_not_In. rewrite map_map. cbn [file_entry fst].
      intros H. apply Hacc in H. destruct H as (j & Hj & E).
      apply frame_filename_inj in E; lia. }
    destruct (write_file_new (Raw (imencode f)) (frame_filename k) dir fs _ L A)
      as (fs1 & W & L1).
    rewrite W.
    assert (Hacc' : forall n,
               In n (map fst (acc ++ [(frame_filename k, imencode f)])) ->
               exists j, 0 <= j < k + 1 /\ n = frame_filename j).
    { intros n H. rewrite map_app in H. apply in_app_iff in H.
      destruct H as [H|[<-|[]]].
      - apply Hacc in H. destruct H as (j & Hj & ->). exists j. split; [lia|easy].
      - exists k. split; [lia|reflexivity]. }
    change (map file_entry acc ++ [(frame_filename k, File (Raw (imencode f)))])
      with (map file_entry acc ++ map file_entry [(frame_filename k, imencode f)])
      in L1.
    rewrite <- map_app in L1.
    destruct (IH (k + 1) fs1 _ ltac:(lia) L1 Hacc') as (R1 & R2 & R3).
    split; [|split].
    + rewrite R1. cbn [frame_files]. now rewrite <- app_assoc.
    + intros x r Hx. rewrite R2 by assumption.
      apply (lookup_write_file_other _ _ _ _ _ W).
      rewrite <- app_assoc. now apply is_prefix_diverge.
    + intros es Le De.
      destruct (write_file_keeps_distinct _ _ _ _ _ _ W Le De) as (es1 & Le1 & De1).
      eauto.
Qed.

End Stored.

(** ** One run of the page *)

Section PageFacts.

Variable Frame : Type.
Variable imencode : Frame -> list byte.
Variable decode : list byte -> VideoCapture Frame.
Variable tempdir : path.
Variable deflate : list byte -> list byte.
Variable zip_encode : list member -> list byte.

Local Abbreviation extract := (extract_frames_from_video imencode).
Local Abbreviation run_main := (main Frame imencode decode tempdir deflate zip_encode).
Local Abbreviation run_try := (try_block Frame imencode decode tempdir deflate zip_encode).
Local Abbreviation offer := (offer_archive tempdir deflate zip_encode).
Local Abbreviation zip_name := "extracted_frames.zip"%string.


Section OneRun.

Variable fs : node.
Variable inp : run_input.
Variable data : list byte.
Variable ws : list widget.

Hypothesis ready : page_ready tempdir fs inp.

Local Abbreviation v := (video_name inp).
Local Abbreviation d := (dir_name inp).
Local Abbreviation out := (path_string (tempdir ++ [d])).
Local Abbreviation the_run :=
  (extract (decode data) (inject_Z (slider inp)) out).

(** The [try] block up to the return of the sampler: the video is on
    the disk, the images are in a directory of their own, and the rest
    of the temporary directory is as before. *)
Lemma try_block_runs (imgs : list Frame) :
  written (fst the_run) = numbered imencode out 0 imgs ->
  exists fs3,
    lookup fs3 (tempdir ++ [v]) = Some (File (Raw data))
    /\ lookup fs3 (tempdir ++ [d])
       = Some (Dir (map file_entry (frame_files imencode 0 imgs)))
    /\ (exists es3, lookup fs3 tempdir = Some (Dir es3)
                    /\ distinct (map fst es3) = true)
    /\ (forall x r, x <> v -> x <> d ->
                    lookup fs3 (tempdir ++ x :: r) = lookup fs (tempdir ++ x :: r))
    /\ run_try inp data (mkPage fs ws)
       = match snd the_run with
         | Return (k, o) =>
             and_then (if 0 <? k then offer inp k o else st Error_no_image)
                      (fun _ => on_disk (fun fs' => unlink fs' (tempdir ++ [v])))
                      (mkPage fs3 ws)
         | Raise e => (mkPage fs3 ws, inr (Core e))
         end.
Proof.
  intros Hw.
  destruct ready as (Vt & Vv & Vd & Nvd & es & L & D & Av & Ad).
  destruct (write_file_new (Raw data) v tempdir fs es L Av) as (fs1 & W1 & L1).
  assert (Ad1 : assoc d (es ++ [(v, File (Raw data))]) = None)
    by (rewrite assoc_app_new_other; auto).
  destruct (mkdir_new d tempdir fs1 _ L1 Ad1) as (fs2 & M2 & L2).
  assert (Lv2 : lookup fs2 (tempdir ++ [v]) = Some (File (Raw data))).
  { rewrite (lookup_child _ _ _ _ L2).
    rewrite assoc_app_new_other by auto. now apply assoc_app_new_same. }
  assert (Ld2 : lookup fs2 (tempdir ++ [d]) = Some (Dir (map file_entry []))).
  { rewrite (lookup_child _ _ _ _ L2). now apply assoc_app_new_same. }
  destruct (store_written_frames Frame imencode tempdir d Vt Vd imgs 0 fs2 []
              ltac:(lia) Ld2 ltac:(simpl; tauto)) as (R1 & R2 & R3).
  set (fs3 := store_written fs2 (numbered imencode out 0 imgs)) in *.
  exists fs3. split; [|split; [|split; [|split]]].
  - change (tempdir ++ [v]) with (tempdir ++ v :: []).
    rewrite R2 by auto. exact Lv2.
  - exact R1.
  - assert (D1 : distinct (map fst (es ++ [(v, File (Raw data))])) = true).
    { rewrite map_app. apply distinct_snoc; [exact D|].
      now apply assoc_None_not_In. }
    assert (D2 : distinct (map fst ((es ++ [(v, File (Raw data))])
                                      ++ [(d, Dir [])])) = true).
    { rewrite map_app. apply distinct_snoc; [exact D1|].
      now apply assoc_None_not_In. }
    exact (R3 _ L2 D2).
  - intros x r Hxv Hxd. rewrite R2 by assumption.
    rewrite (lookup_mkdir_other _ _ _ _ M2)
      by (change [d] with (d :: []); now apply is_prefix_diverge).
    apply (lookup_write_file_other _ _ _ _ _ W1).
    change [v] with (v :: []). now apply is_prefix_diverge.
  - unfold try_block, and_then, on_disk, create_file, call_extract.
    cbn [disk shown_widgets].
    rewrite (lookup_child _ _ _ _ L), Av, W1. cbn [disk shown_widgets].
    rewrite M2. cbn [disk shown_widgets].
    rewrite (abs_components_path_string (tempdir ++ [v]))
      by now apply forallb_valid_snoc.
    rewrite Lv2. cbn [file_bytes].
    destruct the_run as [final r] eqn:E. cbn [fst snd] in *.
    rewrite Hw. fold fs3. destruct r as [[k o]|e]; reflexivity.
Qed.

(** Removing the video at the end: it is gone, the other entries of
    the temporary directory stay. *)
Lemma unlink_cleans (fs4 : node) (c : content) (es4 : list (string * node))
      (ws' : list widget) :
  lookup fs4 tempdir = Some (Dir es4) ->
  distinct (map fst es4) = true ->
  lookup fs4 (tempdir ++ [v]) = Some (File c) ->
  exists fs5,
    on_disk (fun fs' => unlink fs' (tempdir ++ [v])) (mkPage fs4 ws')
    = (mkPage fs5 ws', inl tt)
    /\ lookup fs5 (tempdir ++ [v]) = None
    /\ forall x r, x <> v ->
                   lookup fs5 (tempdir ++ x :: r) = lookup fs4 (tempdir ++ x :: r).
Proof.
  intros L4 D4 Lv. rewrite (lookup_child _ _ _ _ L4) in Lv.
  destruct (unlink_file v c tempdir fs4 es4 L4 Lv) as (fs5 & U & L5).
  exists fs5. split; [|split].
  - unfold on_disk. cbn [disk shown_widgets]. now rewrite U.
  - rewrite (lookup_child _ _ _ _ L5). now apply assoc_remove_entry_same.
  - intros x r Hx. rewrite !lookup_app, L4, L5. simpl.
    now rewrite assoc_remove_entry_other.
Qed.

End OneRun.

(** The start of a run in which a file is uploaded. *)
Lemma main_with_upload (fs : node) (inp : run_input) (ws : list widget)
      (name : string) (data : list byte) :
  file_uploader inp = Some (name, data) ->
  slider inp <> 0 ->
  run_main inp (mkPage fs ws)
  = (if button inp then try_except (run_try inp data) else pure tt)
      (mkPage fs (ws ++ [Info_interval (slider inp);
                         Info_file name (List.length data);
                         Info_interval (slider inp);
                         Info_estimate (60 / slider inp)])).
Proof.
  intros Hf Hs. unfold main, and_then, st, floordiv. rewrite Hf.
  apply Z.eqb_neq in Hs. rewrite Hs. cbn [disk shown_widgets].
  now rewrite <- !app_assoc.
Qed.

Local Abbreviation infos inp name data :=
  [Info_interval (slider inp); Info_file name (List.length data);
   Info_interval (slider inp); Info_estimate (60 / slider inp)].


Lemma numbered_nil (out : string) (imgs : list Frame) :
  numbered imencode out 0 imgs = [] -> imgs = [].
Proof. destruct imgs; [reflexivity|discriminate]. Qed.

(** X15. When the video yields no frame, the page shows the message
    that no image could be extracted, builds no archive and removes the
    temporary copy of the video; the empty directory made for the
    images stays, and the other entries of the temporary directory are
    as before. *)
Theorem no_frame_page
        (fs : node) (inp : run_input) (ws : list widget)
        (name : string) (data : list byte) :
  page_ready tempdir fs inp ->
  file_uploader inp = Some (name, data) ->
  button inp = true ->
  slider inp <> 0 ->
  read_frames (decode data) = [] ->
  let after := run_main inp (mkPage fs ws) in
  snd after = inl tt
  /\ shown_widgets (fst after) = ws ++ infos inp name data ++ [Error_no_image]
  /\ lookup (disk (fst after)) (tempdir ++ [video_name inp]) = None
  /\ lookup (disk (fst after)) (tempdir ++ [dir_name inp]) = Some (Dir [])
  /\ forall x r, x <> video_name inp -> x <> dir_name inp ->
                 lookup (disk (fst after)) (tempdir ++ x :: r)
                 = lookup fs (tempdir ++ x :: r).
Proof.
  intros Hr Hf Hb Hs Hn after. unfold after.
  rewrite (main_with_upload fs inp ws name data Hf Hs), Hb.
  assert (R : extract (decode data) (inject_Z (slider inp))
                      (path_string (tempdir ++ [dir_name inp]))
              = (initial_state,
                 Return (0, path_string (tempdir ++ [dir_name inp])))).
  { destruct (decode data) as [fps total fr]. simpl in Hn. subst fr.
    apply extract_empty. }
  destruct (try_block_runs fs inp data (ws ++ infos inp name data) Hr []
              ltac:(now rewrite R))
    as (fs3 & Lv & Ld & (es3 & L3 & D3) & Fr & E).
  destruct (unlink_cleans inp fs3 _ es3
              ((ws ++ infos inp name data) ++ [Error_no_image]) L3 D3 Lv)
    as (fs5 & U & Gone & Keep).
  assert (Run : try_except (run_try inp data)
                           (mkPage fs (ws ++ infos inp name data))
                = (mkPage fs5 ((ws ++ infos inp name data) ++ [Error_no_image]),
                   inl tt)).
  { unfold try_except. rewrite E, R. cbn [snd].
    change (0 <? 0) with false. cbv iota.
    unfold and_then, st. cbn [disk shown_widgets]. now rewrite U. }
  rewrite Run. cbn [fst snd disk shown_widgets].
  destruct Hr as (_ & _ & _ & Nvd & _).
  split; [reflexivity|]. split; [now rewrite <- app_assoc|].
  split; [exact Gone|]. split.
  - change (tempdir ++ [dir_name inp]) with (tempdir ++ dir_name inp :: []).
    rewrite Keep by auto. exact Ld.
  - intros x r Hxv Hxd. rewrite Keep by assumption. now apply Fr.
Qed.


(** ** The archive offered for download *)











End PageFacts.

(** X17. With the page's interval, an integer of at least 1, and a
    frame rate of at least 1, the frame step is at least the interval:
    the remainder in the loop cannot raise. *)
Theorem slider_interval_gives_positive_step (fps : Q) (i : Z) :
  1 <= i -> (1 <= fps)%Q ->
  i <= frame_interval_of fps (inject_Z i).
Proof.
  intros Hi Hf. unfold frame_interval_of, int.
  destruct fps as [n e]. unfold Qle in Hf. simpl in *.
  rewrite Pos.mul_1_r.
  rewrite Z.quot_div_nonneg by nia.
  apply Z.div_le_lower_bound; nia.
Qed.

(** * The further properties at sample inputs *)


Lemma zero_total_stops_after_first_frame_witness :
  frame_interval_of (CAP_PROP_FPS (clip 30 0 3)) 2 <> 0
  /\ int (CAP_PROP_FRAME_COUNT (clip 30 0 3)) = 0
  /\ read_frames (clip 30 0 3) = [0; 1; 2]%nat
  /\ snd (extract_frames_from_video tag_encode (clip 30 0 3) 2 "out")
     = Raise ZeroDivisionError.
Proof.
  assert (H1 : frame_interval_of (CAP_PROP_FPS (clip 30 0 3)) 2 <> 0)
    by (vm_compute; discriminate).
  assert (H2 : int (CAP_PROP_FRAME_COUNT (clip 30 0 3)) = 0) by reflexivity.
  assert (H3 : read_frames (clip 30 0 3) = [0; 1; 2]%nat) by reflexivity.
  refine (conj H1 (conj H2 (conj H3 _))).
  now rewrite (zero_total_stops_after_first_frame nat tag_encode (clip 30 0 3)
                 2 "out" _ _ H1 H2 H3).
Defined.

Lemma interval_longer_than_video_witness :
  read_frames (clip 30 3 3) = [0; 1; 2]%nat
  /\ Z.of_nat (List.length [0; 1; 2]%nat)
     <= frame_interval_of (CAP_PROP_FPS (clip 30 3 3)) 10
  /\ 0 < int (CAP_PROP_FRAME_COUNT (clip 30 3 3))
  /\ snd (extract_frames_from_video tag_encode (clip 30 3 3) 10 "out")
     = Return (1, "out"%string).
Proof.
  assert (H1 : read_frames (clip 30 3 3) = [0; 1; 2]%nat) by reflexivity.
  assert (H2 : Z.of_nat (List.length [0; 1; 2]%nat)
               <= frame_interval_of (CAP_PROP_FPS (clip 30 3 3)) 10)
    by (vm_compute; discriminate).
  assert (H3 : 0 < int (CAP_PROP_FRAME_COUNT (clip 30 3 3))) by reflexivity.
  refine (conj H1 (conj H2 (conj H3 _))).
  exact (proj1 (interval_longer_than_video nat tag_encode (clip 30 3 3) 10 "out"
                  _ _ H1 H2 H3)).
Defined.

Lemma shorter_stream_saves_a_prefix_witness :
  frame_interval_of 30 1 <> 0
  /\ 0 < int 90
  /\ exists more k_short k_full,
      written (fst (extract_frames_from_video tag_encode
                      (mkCapture 30 90 (seq 0 40 ++ seq 40 50)) 1 "out"))
      = written (fst (extract_frames_from_video tag_encode
                        (mkCapture 30 90 (seq 0 40)) 1 "out")) ++ more
      /\ snd (extract_frames_from_video tag_encode
                (mkCapture 30 90 (seq 0 40)) 1 "out") = Return (k_short, "out"%string)
      /\ snd (extract_frames_from_video tag_encode
                (mkCapture 30 90 (seq 0 40 ++ seq 40 50)) 1 "out")
         = Return (k_full, "out"%string)
      /\ k_short <= k_full.
Proof.
  assert (H1 : frame_interval_of 30 1 <> 0) by (vm_compute; discriminate).
  assert (H2 : 0 < int 90) by reflexivity.
  refine (conj H1 (conj H2 _)).
  exact (shorter_stream_saves_a_prefix nat tag_encode 30 90 1 "out"
           (seq 0 40) (seq 40 50) H1 H2).
Defined.


Lemma missing_folder_gives_empty_archive_witness :
  (forall es, lookup sample_disk ["tmp"; "absent"]%string <> Some (Dir es))
  /\ write_file sample_disk (["tmp"%string] ++ ["extracted_frames.zip"%string])
                (Zip []) <> None
  /\ exists fs2,
      create_zip_from_folder ["tmp"%string] stored no_bytes sample_disk
                             ["tmp"; "absent"]%string "extracted_frames.zip"
      = (fs2, Return ["tmp"; "extracted_frames.zip"]%string)
      /\ lookup fs2 ["tmp"; "extracted_frames.zip"]%string = Some (File (Zip [])).
Proof.
  assert (H1 : forall es,
             lookup sample_disk ["tmp"; "absent"]%string <> Some (Dir es))
    by (intros es; discriminate).
  assert (H2 : write_file sample_disk
                          (["tmp"%string] ++ ["extracted_frames.zip"%string])
                          (Zip []) <> None) by (vm_compute; discriminate).
  refine (conj H1 (conj H2 _)).
  exact (missing_folder_gives_empty_archive ["tmp"%string] stored no_bytes
           sample_disk ["tmp"; "absent"]%string "extracted_frames.zip" H1 H2).
Defined.

Lemma unopenable_archive_raises_witness :
  (forall es, lookup sample_disk ["var"%string] <> Some (Dir es))
  /\ create_zip_from_folder ["var"%string] stored no_bytes sample_disk
                            ["tmp"; "run"]%string "extracted_frames.zip"
     = (sample_disk, Raise OSError).
Proof.
  assert (H : forall es, lookup sample_disk ["var"%string] <> Some (Dir es))
    by (intros es; discriminate).
  split; [exact H|].
  exact (unopenable_archive_raises ["var"%string] stored no_bytes sample_disk
           ["tmp"; "run"]%string "extracted_frames.zip" (or_introl H)).
Defined.

Lemma rebuilding_changes_nothing_witness :
  let first := create_zip_from_folder ["tmp"%string] stored no_bytes sample_disk
                 ["tmp"; "run"]%string "extracted_frames.zip" in
  is_prefix ["tmp"; "run"]%string (["tmp"%string] ++ ["extracted_frames.zip"%string])
  = false
  /\ write_file sample_disk (["tmp"%string] ++ ["extracted_frames.zip"%string])
                (Zip []) <> None
  /\ create_zip_from_folder ["tmp"%string] stored no_bytes (fst first)
                            ["tmp"; "run"]%string "extracted_frames.zip"
     = first.
Proof.
  intros first.
  assert (H1 : is_prefix ["tmp"; "run"]%string
                         (["tmp"%string] ++ ["extracted_frames.zip"%string])
               = false) by reflexivity.
  assert (H2 : write_file sample_disk
                          (["tmp"%string] ++ ["extracted_frames.zip"%string])
                          (Zip []) <> None) by (vm_compute; discriminate).
  refine (conj H1 (conj H2 _)).
  rewrite (surjective_pairing first) at 2.
  exact (rebuilding_changes_nothing ["tmp"%string] stored no_bytes sample_disk
           (fst first) ["tmp"; "run"]%string "extracted_frames.zip" (snd first)
           H1 H2 (surjective_pairing first)).
Defined.


Lemma directories_are_not_stored_witness :
  let es := [("a"%string, Dir []); ("b"%string, Dir [("c"%string, Dir [])])] in
  write_file hollow_disk (["tmp"%string] ++ ["extracted_frames.zip"%string])
             (Zip []) <> None
  /\ lookup hollow_disk ["tmp"; "run"]%string = Some (Dir es)
  /\ well_formed (Dir es) = true
  /\ is_prefix ["tmp"; "run"]%string
               (["tmp"%string] ++ ["extracted_frames.zip"%string]) = false
  /\ has_file (Dir es) = false
  /\ exists fs2,
      create_zip_from_folder ["tmp"%string] stored no_bytes hollow_disk
                             ["tmp"; "run"]%string "extracted_frames.zip"
      = (fs2, Return ["tmp"; "extracted_frames.zip"]%string)
      /\ lookup fs2 ["tmp"; "extracted_frames.zip"]%string = Some (File (Zip [])).
Proof.
  intros es.
  assert (H1 : write_file hollow_disk
                          (["tmp"%string] ++ ["extracted_frames.zip"%string])
                          (Zip []) <> None) by (vm_compute; discriminate).
  assert (H2 : lookup hollow_disk ["tmp"; "run"]%string = Some (Dir es))
    by reflexivity.
  assert (H3 : well_formed (Dir es) = true) by reflexivity.
  assert (H4 : is_prefix ["tmp"; "run"]%string
                         (["tmp"%string] ++ ["extracted_frames.zip"%string])
               = false) by reflexivity.
  assert (H5 : has_file (Dir es) = false) by reflexivity.
  refine (conj H1 (conj H2 (conj H3 (conj H4 (conj H5 _))))).
  exact (directories_are_not_stored ["tmp"%string] stored no_bytes hollow_disk
           ["tmp"; "run"]%string "extracted_frames.zip" es H1 H2 H3 H4 H5).
Defined.

Lemma sample_page_ready (video : list byte) :
  page_ready ["tmp"%string] sample_disk (sample_input video).
Proof.
  repeat split; try reflexivity; try discriminate.
  eexists. repeat split; reflexivity.
Defined.



Lemma no_frame_page_witness :
  let inp := sample_input [] in
  let after := main nat tag_encode sample_decode ["tmp"%string]
                    stored no_bytes inp (mkPage sample_disk []) in
  page_ready ["tmp"%string] sample_disk inp
  /\ file_uploader inp = Some ("plates.mp4"%string, [])
  /\ button inp = true
  /\ slider inp <> 0
  /\ read_frames (sample_decode []) = []
  /\ lookup (disk (fst after)) ["tmp"; "tmpab12.mp4"]%string = None
  /\ lookup (disk (fst after)) ["tmp"; "tmpcd34"]%string = Some (Dir []).
Proof.
  intros inp after.
  assert (H1 : page_ready ["tmp"%string] sample_disk inp)
    by apply sample_page_ready.
  assert (H2 : file_uploader inp = Some ("plates.mp4"%string, [])) by reflexivity.
  assert (H3 : button inp = true) by reflexivity.
  assert (H4 : slider inp <> 0) by discriminate.
  assert (H5 : read_frames (sample_decode []) = []) by reflexivity.
  destruct (no_frame_page nat tag_encode sample_decode ["tmp"%string] stored
              no_bytes sample_disk inp [] _ _ H1 H2 H3 H4 H5)
    as (_ & _ & G & K & _).
  exact (conj H1 (conj H2 (conj H3 (conj H4 (conj H5 (conj G K)))))).
Defined.


Lemma slider_interval_gives_positive_step_witness :
  1 <= 2 /\ (1 <= 2997 # 100)%Q /\ 2 <= frame_interval_of (2997 # 100) (inject_Z 2).
Proof.
  assert (H1 : 1 <= 2) by lia.
  assert (H2 : (1 <= 2997 # 100)%Q) by (unfold Qle; simpl; lia).
  refine (conj H1 (conj H2 _)).
  exact (slider_interval_gives_positive_step (2997 # 100) 2 H1 H2).
Defined.
